(** * The moderation demo's computational kernel, embedded in Rocq

    The repository is a TypeScript script (src/moderation.ts, and an
    extended variant with rate-limit handling).  Three functions carry its
    logic:

    - [parseTimeToMs]           textual duration -> milliseconds,
    - [shouldWaitForRateLimit]  rate-limit headroom -> advised wait,
    - [analyzeResult]           moderation verdict -> flagged categories
                                and the three highest confidence scores.

    JavaScript numbers are IEEE-754 binary64 values; they are embedded as
    Rocq's primitive floats, whose operations are the same ones.  Objects
    that are passed by reference live in an explicit heap, and the three
    functions are programs of a small state-and-exception monad over that
    heap and the console. *)

From Stdlib Require Import ZArith Floats String Ascii List Lia Sorting.Sorted
  Sorting.Permutation.
From stdpp Require Import base gmap.
Set Warnings "-inexact-float".

Open Scope Z_scope.
Open Scope string_scope.

(** ** JavaScript numbers *)

Module JS.

Definition number := float.
Bind Scope float_scope with number.

(** The Number nearest to a mathematical integer (ties to even): what the
    language calls F(n). *)
Definition number_of_Z (n : Z) : number :=
  SF2Prim (binary_normalize prec emax n 0 false).

Definition is_pos_zero (x : number) : bool :=
  PrimFloat.Leibniz.eqb x PrimFloat.zero.
Definition is_neg_zero (x : number) : bool :=
  PrimFloat.Leibniz.eqb x PrimFloat.neg_zero.

(** [Math.max] on two arguments: NaN if either is NaN; +0 is larger than
    -0; otherwise the larger argument. *)
Definition Math_max (a b : number) : number :=
  if PrimFloat.is_nan a then PrimFloat.nan
  else if PrimFloat.is_nan b then PrimFloat.nan
  else if is_pos_zero b && is_neg_zero a then b
  else if (a <? b)%float then b
  else a.

(** ToBoolean on a possibly undefined string: undefined and the empty
    string are falsy. *)
Definition truthy (s : option string) : bool :=
  match s with
  | None => false
  | Some s => negb (String.eqb s EmptyString)
  end.

(** *** Strings and the regular expression [/(\d+)([smh])/]

    A text is kept as the bytes of its UTF-8 encoding.  The pattern tells
    apart only the ten ASCII digits and the letters s, m, h; each is one
    byte, and no byte of a longer sequence is one of them, so the pattern
    matches the bytes where it matches the text. *)

Definition is_digit (c : ascii) : bool :=
  let n := N_of_ascii c in ((48 <=? n) && (n <=? 57))%N.

Definition is_unit (c : ascii) : bool :=
  match c with
  | "s"%char | "m"%char | "h"%char => true
  | _ => false
  end.

(** What [String.prototype.match] returns for a pattern with two groups and
    no global flag: the matched text and the two captures ([None] stands
    for [null]). *)
Record match_array := MatchArray {
  matched : string;
  capture1 : string;
  capture2 : string
}.

(** [\d+[smh]] anchored at the head of [s].  The quantifier is greedy: the
    longest digit run is tried first, and the matcher backs off one digit
    at a time. *)
Fixpoint match_here (s : string) : option (string * ascii) :=
  match s with
  | EmptyString => None
  | String c s' =>
      if is_digit c then
        match match_here s' with
        | Some (ds, u) => Some (String c ds, u)
        | None =>
            match s' with
            | String u _ => if is_unit u then Some (String c EmptyString, u) else None
            | EmptyString => None
            end
        end
      else None
  end.

(** The search of an unanchored pattern: the leftmost start position that
    matches wins. *)
Fixpoint String_match (s : string) : option match_array :=
  match match_here s with
  | Some (ds, u) =>
      Some (MatchArray (ds ++ String u EmptyString) ds (String u EmptyString))
  | None =>
      match s with
      | EmptyString => None
      | String _ s' => String_match s'
      end
  end.

(** [parseInt] in radix 10, on the strings the program passes to it: the
    leading decimal digits are read as an integer, which is then rounded
    to the nearest Number, as Node does (the language lets an engine
    approximate beyond 20 significant digits); NaN when the string does
    not start with a digit. *)
Fixpoint digits_value (acc : Z) (s : string) : Z :=
  match s with
  | EmptyString => acc
  | String c s' =>
      if is_digit c
      then digits_value (10 * acc + (Z.of_N (N_of_ascii c) - 48)) s'
      else acc
  end.

Definition parseInt (s : string) : number :=
  match s with
  | EmptyString => PrimFloat.nan
  | String c _ => if is_digit c then number_of_Z (digits_value 0 s) else PrimFloat.nan
  end.

(** [Array.prototype.sort] with a comparison function.  The sort is stable;
    a NaN from the comparison counts as 0.  An element moves behind another
    one only when the comparison of the two is positive. *)
Section Sort.
Context {A : Type} (comparefn : A -> A -> number).

Fixpoint sort_insert (x : A) (l : list A) : list A :=
  match l with
  | [] => [x]
  | y :: l' =>
      if (0 <? comparefn x y)%float then y :: sort_insert x l' else x :: l
  end.

Definition Array_sorted (l : list A) : list A := fold_right sort_insert [] l.
End Sort.

End JS.

(** ** Data model *)

(** [enum ModerationCategory]: thirteen string-valued members, in the order
    of their declaration. *)
Inductive ModerationCategory :=
  | SEXUAL
  | SEXUAL_MINORS
  | HARASSMENT
  | HARASSMENT_THREATENING
  | HATE
  | HATE_THREATENING
  | ILLICIT
  | ILLICIT_VIOLENT
  | SELF_HARM
  | SELF_HARM_INTENT
  | SELF_HARM_INSTRUCTIONS
  | VIOLENCE
  | VIOLENCE_GRAPHIC.

Definition category_tag (c : ModerationCategory) : string :=
  match c with
  | SEXUAL => "sexual"
  | SEXUAL_MINORS => "sexual/minors"
  | HARASSMENT => "harassment"
  | HARASSMENT_THREATENING => "harassment/threatening"
  | HATE => "hate"
  | HATE_THREATENING => "hate/threatening"
  | ILLICIT => "illicit"
  | ILLICIT_VIOLENT => "illicit/violent"
  | SELF_HARM => "self-harm"
  | SELF_HARM_INTENT => "self-harm/intent"
  | SELF_HARM_INSTRUCTIONS => "self-harm/instructions"
  | VIOLENCE => "violence"
  | VIOLENCE_GRAPHIC => "violence/graphic"
  end.

Definition all_categories : list ModerationCategory :=
  [SEXUAL; SEXUAL_MINORS; HARASSMENT; HARASSMENT_THREATENING; HATE;
   HATE_THREATENING; ILLICIT; ILLICIT_VIOLENT; SELF_HARM; SELF_HARM_INTENT;
   SELF_HARM_INSTRUCTIONS; VIOLENCE; VIOLENCE_GRAPHIC].

#[global] Instance ModerationCategory_eq_dec : EqDecision ModerationCategory.
Proof. solve_decision. Defined.

(** An object keyed by the categories.  [Object.entries] lists the
    properties of an object in the order in which they were created, so
    the object is kept as the ordered list of its properties. *)
Definition keyed (V : Type) := list (ModerationCategory * V).

(** The interfaces [ModerationCategories], [ModerationCategoryScores] and
    [ModerationCategoryAppliedInputTypes] require every category as a key;
    an object has each key once. *)
Definition has_all_keys {V} (o : keyed V) : Prop :=
  Permutation (map fst o) all_categories.

(** [interface ModerationResult] *)
Record ModerationResult := {
  flagged : bool;
  categories : keyed bool;
  category_scores : keyed JS.number;
  category_applied_input_types : keyed (list string)
}.

Definition well_formed_result (r : ModerationResult) : Prop :=
  has_all_keys (categories r) /\
  has_all_keys (category_scores r) /\
  has_all_keys (category_applied_input_types r).

(** [interface RateLimitInfo]: every field optional ([None] is
    [undefined]). *)
Record RateLimitInfo := {
  limitRequests : option JS.number;
  limitTokens : option JS.number;
  remainingRequests : option JS.number;
  remainingTokens : option JS.number;
  resetRequests : option string;
  resetTokens : option string
}.

(** An object as it is when the program runs.  The types are erased by
    then: what is passed as a [RateLimitInfo] is a table of properties by
    name, and it may hold properties that the interface does not list. *)
Inductive value :=
  | VUndefined
  | VNull
  | VBoolean (b : bool)
  | VNumber (x : JS.number)
  | VString (s : string).

Definition object := gmap string value.

(** ** Heap, console and the monad of programs *)

Definition loc := positive.

(** What a reference can point to: the two argument objects, the arrays
    that [analyzeResult] builds, and an object with its properties by
    name. *)
Inductive cell :=
  | CRateLimitInfo (i : RateLimitInfo)
  | CModerationResult (r : ModerationResult)
  | CFlagEntries (a : list (ModerationCategory * bool))
  | CScoreEntries (a : list (ModerationCategory * JS.number))
  | CCategoryArray (a : list ModerationCategory)
  | CObject (o : object).

(** A line of console output.  A score line carries the number that the
    source renders with [toFixed(2)]. *)
Inductive line :=
  | Text (s : string)
  | Percent (category : string) (percent : JS.number).

Record world := World {
  heap : gmap loc cell;
  console : list line
}.

Inductive error := TypeError.

Inductive outcome (A : Type) :=
  | Returned (v : A) (w : world)
  | Thrown (e : error) (w : world).
Arguments Returned {A} v w.
Arguments Thrown {A} e w.

Definition js (A : Type) := world -> outcome A.

#[global] Instance js_ret : MRet js := fun A v w => Returned v w.
#[global] Instance js_bind : MBind js := fun A B k m w =>
  match m w with
  | Returned v w' => k v w'
  | Thrown e w' => Thrown e w'
  end.
Definition throw {A} (e : error) : js A := fun w => Thrown e w.

(** Values that can sit behind a reference. *)
Class Storable (A : Type) := {
  to_cell : A -> cell;
  of_cell : cell -> option A;
  of_to_cell : forall a, of_cell (to_cell a) = Some a
}.

#[global, refine] Instance Storable_RateLimitInfo : Storable RateLimitInfo :=
  {| to_cell := CRateLimitInfo;
     of_cell c := match c with CRateLimitInfo i => Some i | _ => None end |}.
Proof. reflexivity. Defined.

#[global, refine] Instance Storable_ModerationResult : Storable ModerationResult :=
  {| to_cell := CModerationResult;
     of_cell c := match c with CModerationResult r => Some r | _ => None end |}.
Proof. reflexivity. Defined.

#[global, refine] Instance Storable_flags : Storable (list (ModerationCategory * bool)) :=
  {| to_cell := CFlagEntries;
     of_cell c := match c with CFlagEntries a => Some a | _ => None end |}.
Proof. reflexivity. Defined.

#[global, refine] Instance Storable_scores : Storable (list (ModerationCategory * JS.number)) :=
  {| to_cell := CScoreEntries;
     of_cell c := match c with CScoreEntries a => Some a | _ => None end |}.
Proof. reflexivity. Defined.

#[global, refine] Instance Storable_names : Storable (list ModerationCategory) :=
  {| to_cell := CCategoryArray;
     of_cell c := match c with CCategoryArray a => Some a | _ => None end |}.
Proof. reflexivity. Defined.

#[global, refine] Instance Storable_object : Storable object :=
  {| to_cell := CObject;
     of_cell c := match c with CObject o => Some o | _ => None end |}.
Proof. reflexivity. Defined.

(** A reference carries the static type of what it points to. *)
Record ref (A : Type) := Ref { addr : loc }.
Arguments Ref {A} addr.
Arguments addr {A} r.

(** Reading through a reference.  A reference that does not point to an
    object of the expected kind is the [null] or [undefined] case of the
    source: property access on it throws. *)
Definition load {A} `{Storable A} (l : ref A) : js A :=
  fun w =>
    match heap w !! addr l with
    | Some c =>
        match of_cell c with
        | Some a => Returned a w
        | None => Thrown TypeError w
        end
    | None => Thrown TypeError w
    end.

(** A new object gets a reference that nothing holds yet. *)
Definition alloc {A} `{Storable A} (a : A) : js (ref A) :=
  fun w =>
    let l := fresh (dom (heap w)) in
    Returned (Ref l) (World (<[l := to_cell a]> (heap w)) (console w)).

(** Overwriting the object behind a reference. *)
Definition store {A} `{Storable A} (l : ref A) (a : A) : js unit :=
  fun w => Returned tt (World (<[addr l := to_cell a]> (heap w)) (console w)).

Definition console_log (t : line) : js unit :=
  fun w => Returned tt (World (heap w) (console w ++ [t])).

(** *** Array methods *)

(** [Object.entries(o)]: a new array of the [key, value] pairs. *)
Definition Object_entries {V} `{Storable (list (ModerationCategory * V))}
    (o : keyed V) : js (ref (list (ModerationCategory * V))) :=
  alloc o.

(** [a.filter(p)]: a new array. *)
Definition Array_filter {A} `{Storable (list A)} (a : ref (list A)) (p : A -> bool)
    : js (ref (list A)) :=
  xs ← load a; alloc (List.filter p xs).

(** [a.map(f)]: a new array. *)
Definition Array_map {A B} `{Storable (list A)} `{Storable (list B)}
    (a : ref (list A)) (f : A -> B) : js (ref (list B)) :=
  xs ← load a; alloc (List.map f xs).

(** [a.sort(comparefn)]: sorts the array in place and returns the same
    reference. *)
Definition Array_sort {A} `{Storable (list A)} (a : ref (list A))
    (comparefn : A -> A -> JS.number) : js (ref (list A)) :=
  xs ← load a;
  store a (JS.Array_sorted comparefn xs);;
  mret a.

(** [a.slice(0, n)]: a new array. *)
Definition Array_slice0 {A} `{Storable (list A)} (a : ref (list A)) (n : nat)
    : js (ref (list A)) :=
  xs ← load a; alloc (firstn n xs).

Definition Array_length {A} `{Storable (list A)} (a : ref (list A)) : js nat :=
  xs ← load a; mret (length xs).

Fixpoint for_each {A} (f : A -> js unit) (xs : list A) : js unit :=
  match xs with
  | [] => mret tt
  | x :: xs' => f x;; for_each f xs'
  end.

Definition Array_forEach {A} `{Storable (list A)} (a : ref (list A))
    (f : A -> js unit) : js unit :=
  xs ← load a; for_each f xs.

Fixpoint join (sep : string) (xs : list string) : string :=
  match xs with
  | [] => EmptyString
  | [x] => x
  | x :: xs' => x ++ sep ++ join sep xs'
  end.

Definition Array_join (a : ref (list ModerationCategory)) (sep : string) : js string :=
  xs ← load a; mret (join sep (List.map category_tag xs)).

(** ** The program *)

(** [match[i]]: reading an element of the result of [String.match]; on
    [null] the access throws. *)
Definition element (m : option JS.match_array) (field : JS.match_array -> string)
    : js string :=
  match m with
  | None => throw TypeError
  | Some a => mret (field a)
  end.

(** [function parseTimeToMs(timeStr: string): number] *)
Definition parseTimeToMs (timeStr : string) : js JS.number :=
  let match_ := JS.String_match timeStr in
  if negb (bool_decide (is_Some match_)) then mret 0%float
  else
    digits ← element match_ JS.capture1;
    let value := JS.parseInt digits in
    unit ← element match_ JS.capture2;
    if String.eqb unit "s" then mret (value * 1000)%float
    else if String.eqb unit "m" then mret (value * 60 * 1000)%float
    else if String.eqb unit "h" then mret (value * 60 * 60 * 1000)%float
    else mret 0%float.

(** The default value of the parameter [threshold]. *)
Definition default_threshold : JS.number := 0.1%float.

(** [function shouldWaitForRateLimit(rateLimitInfo: RateLimitInfo,
    threshold: number = 0.1): number].  An optional field that is
    [undefined] reads as [None]; a reset text is passed to the parser only
    where the test has found it truthy. *)
Definition shouldWaitForRateLimit (rateLimitInfo : ref RateLimitInfo)
    (threshold : option JS.number) : js JS.number :=
  let threshold := default default_threshold threshold in
  info ← load rateLimitInfo;
  let waitTime := 0%float in
  (* Check request limits *)
  waitTime ←
    match remainingRequests info, limitRequests info with
    | Some remaining, Some limit =>
        let requestsRatio := (remaining / limit)%float in
        match resetRequests info with
        | Some reset =>
            if (requestsRatio <? threshold)%float && JS.truthy (resetRequests info) then
              t ← parseTimeToMs reset;
              mret (JS.Math_max waitTime t)
            else mret waitTime
        | None => mret waitTime
        end
    | _, _ => mret waitTime
    end;
  (* Check token limits *)
  waitTime ←
    match remainingTokens info, limitTokens info with
    | Some remaining, Some limit =>
        let tokensRatio := (remaining / limit)%float in
        match resetTokens info with
        | Some reset =>
            if (tokensRatio <? threshold)%float && JS.truthy (resetTokens info) then
              t ← parseTimeToMs reset;
              mret (JS.Math_max waitTime t)
            else mret waitTime
        | None => mret waitTime
        end
    | _, _ => mret waitTime
    end;
  mret waitTime.

(** [o.name] for a property that the interface declares as [name?:
    number], and as [name?: string].  The type checker lets an object
    through as a [RateLimitInfo] only when such a property, if the object
    has it, holds a value of that type or [undefined]; the missing
    property and [undefined] both read as [None]. *)
Definition number_property (o : object) (name : string) : option JS.number :=
  match o !! name with
  | Some (VNumber x) => Some x
  | _ => None
  end.

Definition string_property (o : object) (name : string) : option string :=
  match o !! name with
  | Some (VString s) => Some s
  | _ => None
  end.

(** [shouldWaitForRateLimit] on the object as it is at run time: the same
    function, with every property looked up by its name where the source
    reads it. *)
Definition shouldWaitForRateLimit_object (rateLimitInfo : ref object)
    (threshold : option JS.number) : js JS.number :=
  let threshold := default default_threshold threshold in
  o ← load rateLimitInfo;
  let waitTime := 0%float in
  (* Check request limits *)
  waitTime ←
    match number_property o "remainingRequests", number_property o "limitRequests" with
    | Some remaining, Some limit =>
        let requestsRatio := (remaining / limit)%float in
        match string_property o "resetRequests" with
        | Some reset =>
            if (requestsRatio <? threshold)%float
               && JS.truthy (string_property o "resetRequests") then
              t ← parseTimeToMs reset;
              mret (JS.Math_max waitTime t)
            else mret waitTime
        | None => mret waitTime
        end
    | _, _ => mret waitTime
    end;
  (* Check token limits *)
  waitTime ←
    match number_property o "remainingTokens", number_property o "limitTokens" with
    | Some remaining, Some limit =>
        let tokensRatio := (remaining / limit)%float in
        match string_property o "resetTokens" with
        | Some reset =>
            if (tokensRatio <? threshold)%float
               && JS.truthy (string_property o "resetTokens") then
              t ← parseTimeToMs reset;
              mret (JS.Math_max waitTime t)
            else mret waitTime
        | None => mret waitTime
        end
    | _, _ => mret waitTime
    end;
  mret waitTime.

(** [ModerationApp.log(message)], as in src/moderation.ts; the extended
    variant puts a timestamp in front of the message.  The pictographs of
    the source's messages are left out of the texts below. *)
Definition log (message : string) : js unit := console_log (Text message).

Definition excerpt (n : nat) (text : string) : string :=
  String.substring 0 n text ++ (if (n <? String.length text)%nat then "..." else EmptyString).

(** What the two constants of [analyzeResult] hold when the method is done
    with them. *)
Record analysis := Analysis {
  flaggedCategories : list ModerationCategory;
  highScores : list (ModerationCategory * JS.number)
}.

(** [ModerationApp.analyzeResult(result: ModerationResult, inputText:
    string)].  The method returns nothing; the embedding hands back the
    contents of [flaggedCategories] and [highScores], or [None] when the
    method did not compute them. *)
Definition analyzeResult (result : ref ModerationResult) (inputText : string)
    : js (option analysis) :=
  r ← load result;
  log ("Analysis for: " ++ excerpt 30 inputText);;
  log ("Flagged: " ++ (if flagged r then "YES" else "NO"));;
  out ←
    (if flagged r then
       entries ← Object_entries (categories r);
       kept ← Array_filter entries (fun '(_, flagged) => flagged);
       flaggedCategories ← Array_map kept (fun '(category, _) => category);
       joined ← Array_join flaggedCategories ", ";
       log ("Flagged Categories: " ++ joined);;
       scores ← Object_entries (category_scores r);
       high ← Array_filter scores (fun '(_, score) => (0.1 <? score)%float);
       sorted ← Array_sort high (fun '(_, a) '(_, b) => (b - a)%float);
       highScores ← Array_slice0 sorted 3;
       n ← Array_length highScores;
       (if (0 <? n)%nat then
          log "Top Confidence Scores:";;
          Array_forEach highScores
            (fun '(category, score) =>
               console_log (Percent (category_tag category) (score * 100)%float))
        else mret tt);;
       fc ← load flaggedCategories;
       hs ← load highScores;
       mret (Some (Analysis fc hs))
     else mret None);
  console_log (Text EmptyString);;
  mret out.

(** ** What the program computes, read off its text *)

(** The value of the [return] statement that [parseTimeToMs] reaches. *)
Definition milliseconds (timeStr : string) : JS.number :=
  match JS.String_match timeStr with
  | None => 0%float
  | Some a =>
      let value := JS.parseInt (JS.capture1 a) in
      if String.eqb (JS.capture2 a) "s" then (value * 1000)%float
      else if String.eqb (JS.capture2 a) "m" then (value * 60 * 1000)%float
      else if String.eqb (JS.capture2 a) "h" then (value * 60 * 60 * 1000)%float
      else 0%float
  end.

(** The value of [waitTime] after one of the two checks. *)
Definition checked_wait (remaining limit : option JS.number) (reset : option string)
    (threshold waitTime : JS.number) : JS.number :=
  match remaining, limit, reset with
  | Some remaining, Some limit, Some resetText =>
      if ((remaining / limit) <? threshold)%float && JS.truthy reset
      then JS.Math_max waitTime (milliseconds resetText)
      else waitTime
  | _, _, _ => waitTime
  end.

(** The value that [shouldWaitForRateLimit] returns. *)
Definition advised_wait (info : RateLimitInfo) (threshold : option JS.number) : JS.number :=
  let threshold := default default_threshold threshold in
  let waitTime :=
    checked_wait (remainingRequests info) (limitRequests info) (resetRequests info)
      threshold 0%float in
  checked_wait (remainingTokens info) (limitTokens info) (resetTokens info)
    threshold waitTime.

(** The six documented properties of an object, read at the types the
    interface gives them: [None] when one of them holds a value of another
    type.  The other properties of the object play no part. *)
Definition typed_number (v : option value) : option (option JS.number) :=
  match v with
  | None | Some VUndefined => Some None
  | Some (VNumber x) => Some (Some x)
  | _ => None
  end.

Definition typed_string (v : option value) : option (option string) :=
  match v with
  | None | Some VUndefined => Some None
  | Some (VString s) => Some (Some s)
  | _ => None
  end.

Definition as_RateLimitInfo (o : object) : option RateLimitInfo :=
  limit_requests ← typed_number (o !! "limitRequests");
  limit_tokens ← typed_number (o !! "limitTokens");
  remaining_requests ← typed_number (o !! "remainingRequests");
  remaining_tokens ← typed_number (o !! "remainingTokens");
  reset_requests ← typed_string (o !! "resetRequests");
  reset_tokens ← typed_string (o !! "resetTokens");
  Some {| limitRequests := limit_requests;
          limitTokens := limit_tokens;
          remainingRequests := remaining_requests;
          remainingTokens := remaining_tokens;
          resetRequests := reset_requests;
          resetTokens := reset_tokens |}.

(** The names of the six properties. *)
Definition documented_fields : list string :=
  ["limitRequests"; "remainingRequests"; "resetRequests";
   "limitTokens"; "remainingTokens"; "resetTokens"].

(** The three callbacks of [analyzeResult]. *)
Definition is_flagged : ModerationCategory * bool -> bool :=
  fun '(_, flagged) => flagged.
Definition is_high : ModerationCategory * JS.number -> bool :=
  fun '(_, score) => (0.1 <? score)%float.
Definition by_score_descending
    : ModerationCategory * JS.number -> ModerationCategory * JS.number -> JS.number :=
  fun '(_, a) '(_, b) => (b - a)%float.

(** The array that [highScores] is sliced from. *)
Definition sorted_high_scores (r : ModerationResult) : list (ModerationCategory * JS.number) :=
  JS.Array_sorted by_score_descending (List.filter is_high (category_scores r)).

(** The contents of the two constants of [analyzeResult]. *)
Definition analysis_of (r : ModerationResult) : option analysis :=
  if flagged r then
    Some (Analysis (List.map fst (List.filter is_flagged (categories r)))
                   (firstn 3 (sorted_high_scores r)))
  else None.

(** The value a program returns, if it returns. *)
Definition returned {A} (o : outcome A) : option A :=
  match o with
  | Returned v _ => Some v
  | Thrown _ _ => None
  end.

(** [wp m w Q]: from the world [w] the program [m] returns, with a value
    and a world that satisfy [Q]. *)
Definition wp {A} (m : js A) (w : world) (Q : A -> world -> Prop) : Prop :=
  match m w with
  | Returned v w' => Q v w'
  | Thrown _ _ => False
  end.

(** A world with nothing on the heap and nothing printed. *)
Definition empty_world : world := World ∅ [].

(** A world whose heap holds one object, behind reference 1. *)
Definition world_with (c : cell) : world := World {[ 1%positive := c ]} [].

(** ** The specification's vocabulary *)

(** A string of the form <digits><unit>: one or more decimal digits and
    then one of s, m, h, and nothing else. *)
Fixpoint all_digits (s : string) : bool :=
  match s with
  | EmptyString => true
  | String c s' => JS.is_digit c && all_digits s'
  end.

Definition duration_text (digits : string) (unit : ascii) : string :=
  digits ++ String unit EmptyString.

(** The integer a digit string denotes. *)
Definition integer_value (digits : string) : Z := JS.digits_value 0 digits.

(** Milliseconds per unit. *)
Definition multiplier (unit : ascii) : Z :=
  match unit with
  | "s"%char => 1000
  | "m"%char => 60000
  | "h"%char => 3600000
  | _ => 0
  end.

(** Somewhere in the string a digit is directly followed by a unit
    letter. *)
Fixpoint has_duration_token (s : string) : bool :=
  match s with
  | EmptyString => false
  | String d s' =>
      match s' with
      | String u _ => JS.is_digit d && JS.is_unit u
      | EmptyString => false
      end
      || has_duration_token s'
  end.

(** The integer that a number holds: [None] for NaN, the infinities and
    numbers with a fractional part. *)
Definition integer_of (x : JS.number) : option Z :=
  match Prim2SF x with
  | S754_zero _ => Some 0
  | S754_finite s m e =>
      let sign := if s then -1 else 1 in
      if Z.leb 0 e then Some (sign * (Z.pos m * 2 ^ e))
      else if Z.eqb (Z.pos m mod 2 ^ (- e)) 0 then Some (sign * (Z.pos m / 2 ^ (- e)))
      else None
  | _ => None
  end.

(** The candidate wait of one dimension, in the specification's words:
    both counts present, their ratio strictly below the threshold, the
    reset text present. *)
Definition candidate_wait (remaining limit : option JS.number) (reset : option string)
    (threshold : JS.number) : option JS.number :=
  match remaining, limit, reset with
  | Some remaining, Some limit, Some resetText =>
      if ((remaining / limit) <? threshold)%float
      then Some (milliseconds resetText)
      else None
  | _, _, _ => None
  end.

(** The larger of two numbers. *)
Definition larger (a b : JS.number) : JS.number := if (a <? b)%float then b else a.

(** The maximum of the candidate waits, 0 when there is none. *)
Definition maximum_candidate (c1 c2 : option JS.number) : JS.number :=
  match c1, c2 with
  | None, None => 0%float
  | Some a, None => a
  | None, Some b => b
  | Some a, Some b => larger a b
  end.

(** The value listed for a key of an object. *)
Fixpoint property {V} (o : keyed V) (c : ModerationCategory) : option V :=
  match o with
  | [] => None
  | (k, v) :: o' => if decide (k = c) then Some v else property o' c
  end.

(** The categories whose boolean is true, in the order of the
    enumeration's declaration. *)
Definition flagged_in_canonical_order (r : ModerationResult) : list ModerationCategory :=
  List.filter (fun c => bool_decide (property (categories r) c = Some true)) all_categories.

Definition descending (x y : ModerationCategory * JS.number) : Prop :=
  (snd y <=? snd x)%float = true.

Definition has_score (s : JS.number) (entry : ModerationCategory * JS.number) : bool :=
  (snd entry =? s)%float.

(** ** Sample inputs *)

(** A result object that lists its keys in the order of the enumeration. *)
Definition result_in_canonical_order (is_flagged : bool)
    (category : ModerationCategory -> bool) (score : ModerationCategory -> JS.number)
    : ModerationResult :=
  {| flagged := is_flagged;
     categories := List.map (fun c => (c, category c)) all_categories;
     category_scores := List.map (fun c => (c, score c)) all_categories;
     category_applied_input_types := List.map (fun c => (c, ["text"])) all_categories |}.

(** Not flagged as a whole, yet the hate category is set and scores 0.5. *)
Definition unflagged_result : ModerationResult :=
  result_in_canonical_order false
    (fun c => bool_decide (c = HATE))
    (fun c => if decide (c = HATE) then 0.5%float else 0.01%float).

(** The order in which the moderation service lists the categories. *)
Definition service_order : list ModerationCategory :=
  [HARASSMENT; HARASSMENT_THREATENING; SEXUAL; HATE; HATE_THREATENING; ILLICIT;
   ILLICIT_VIOLENT; SELF_HARM_INTENT; SELF_HARM_INSTRUCTIONS; SELF_HARM;
   SEXUAL_MINORS; VIOLENCE; VIOLENCE_GRAPHIC].

(** A flagged result whose objects list their keys in the service's
    order; harassment and sexual are set. *)
Definition result_in_service_order : ModerationResult :=
  {| flagged := true;
     categories :=
       List.map (fun c => (c, bool_decide (c = HARASSMENT \/ c = SEXUAL))) service_order;
     category_scores :=
       List.map (fun c => (c, if bool_decide (c = HARASSMENT \/ c = SEXUAL)
                              then 0.75%float else 0.01%float)) service_order;
     category_applied_input_types := List.map (fun c => (c, ["text"])) service_order |}.

(** The rate-limit object of the specification's third example. *)
Definition example_info : RateLimitInfo :=
  {| limitRequests := Some 100%float;
     limitTokens := Some 1000%float;
     remainingRequests := Some 5%float;
     remainingTokens := Some 1%float;
     resetRequests := Some "30s";
     resetTokens := Some "1h" |}.

(** A request limit of 0 with a negative remaining count. *)
Definition overdrawn_info : RateLimitInfo :=
  {| limitRequests := Some 0%float;
     limitTokens := None;
     remainingRequests := Some (-1)%float;
     remainingTokens := None;
     resetRequests := Some "30s";
     resetTokens := None |}.

(** A request limit of 0 with a remaining count of 7. *)
Definition exhausted_info : RateLimitInfo :=
  {| limitRequests := Some 0%float;
     limitTokens := Some 1000%float;
     remainingRequests := Some 7%float;
     remainingTokens := Some 1%float;
     resetRequests := Some "30s";
     resetTokens := Some "2m" |}.

(** The same six properties in an object that holds others as well. *)
Definition exhausted_object : object :=
  {[ "limitRequests" := VNumber 0%float;
     "limitTokens" := VNumber 1000%float;
     "remainingRequests" := VNumber 7%float;
     "remainingTokens" := VNumber 1%float;
     "resetRequests" := VString "30s";
     "resetTokens" := VString "2m";
     "retryAfter" := VString "9h";
     "remaining" := VNumber 0%float;
     "limit" := VNull;
     "stale" := VBoolean true ]}.



(** ** Classes of binary64 values used in the proofs *)

(** +0, a positive finite number or +Infinity. *)
Definition nonneg_sf (x : spec_float) : Prop :=
  match x with
  | S754_zero false | S754_infinity false | S754_finite false _ _ => True
  | _ => False
  end.

Definition nonneg (x : JS.number) : Prop := nonneg_sf (Prim2SF x).

Definition strictly_pos_sf (x : spec_float) : Prop :=
  match x with
  | S754_infinity false | S754_finite false _ _ => True
  | _ => False
  end.

(** A positive finite number in canonical form, or +Infinity. *)
Definition pos_sf (x : spec_float) : Prop :=
  match x with
  | S754_infinity false => True
  | S754_finite false m e => bounded prec emax m e = true
  | _ => False
  end.

Definition positive_number (x : JS.number) : Prop := pos_sf (Prim2SF x).

(** [represents x n]: [x] is the normalised binary64 form of the positive
    integer [n], which fits in 53 bits. *)
Definition represents (x : spec_float) (n : Z) : Prop :=
  exists m e, x = S754_finite false m e /\ Z.pos (digits2_pos m) = 53 /\
              -52 <= e <= 0 /\ Z.pos m = n * 2 ^ (- e).

(** * More of the program *)

(** ** [parseInt] in full and the rate-limit headers

    [parseRateLimitHeaders] hands header texts to [parseInt], which skips
    leading white space, reads a sign and a hexadecimal prefix, and stops at
    the first character that is not a digit. *)

Module Text.

(** White space and line terminators of the language, as UTF-8: the
    one-byte ones, U+00A0, and the three-byte ones (U+1680, U+2000 to
    U+200A, U+2028, U+2029, U+202F, U+205F, U+3000, U+FEFF). *)
Definition is_space1 (c : ascii) : bool :=
  let n := N_of_ascii c in
  (N.eqb n 9 || N.eqb n 10 || N.eqb n 11 || N.eqb n 12 || N.eqb n 13 || N.eqb n 32)%bool.

Definition is_space2 (c1 c2 : ascii) : bool :=
  (N.eqb (N_of_ascii c1) 194 && N.eqb (N_of_ascii c2) 160)%bool.

Definition is_space3 (c1 c2 c3 : ascii) : bool :=
  let n1 := N_of_ascii c1 in
  let n2 := N_of_ascii c2 in
  let n3 := N_of_ascii c3 in
  (N.eqb n1 225 && N.eqb n2 154 && N.eqb n3 128
   || N.eqb n1 226 && N.eqb n2 128
      && (N.leb 128 n3 && N.leb n3 138 || N.eqb n3 168 || N.eqb n3 169 || N.eqb n3 175)
   || N.eqb n1 226 && N.eqb n2 129 && N.eqb n3 159
   || N.eqb n1 227 && N.eqb n2 128 && N.eqb n3 128
   || N.eqb n1 239 && N.eqb n2 187 && N.eqb n3 191)%bool.

(** [TrimString(s, start)] *)
Fixpoint TrimStart (s : string) : string :=
  match s with
  | EmptyString => s
  | String c1 r1 =>
      if is_space1 c1 then TrimStart r1
      else
        match r1 with
        | EmptyString => s
        | String c2 r2 =>
            if is_space2 c1 c2 then TrimStart r2
            else
              match r2 with
              | EmptyString => s
              | String c3 r3 => if is_space3 c1 c2 c3 then TrimStart r3 else s
              end
        end
  end.

(** The value of a character as a digit of the radix: 0 to 9, then the
    letters in either case. *)
Definition digit_in_radix (radix : Z) (c : ascii) : option Z :=
  let n := Z.of_N (N_of_ascii c) in
  let v :=
    if (Z.leb 48 n && Z.leb n 57)%bool then Some (n - 48)
    else if (Z.leb 97 n && Z.leb n 122)%bool then Some (n - 87)
    else if (Z.leb 65 n && Z.leb n 90)%bool then Some (n - 55)
    else None in
  match v with
  | Some d => if Z.ltb d radix then Some d else None
  | None => None
  end.

(** The integer of the leading digits; [acc] is [None] until a digit has
    been read. *)
Fixpoint radix_value (radix : Z) (acc : option Z) (s : string) : option Z :=
  match s with
  | EmptyString => acc
  | String c s' =>
      match digit_in_radix radix c with
      | Some d => radix_value radix (Some (radix * default 0 acc + d)) s'
      | None => acc
      end
  end.

(** [parseInt(string)] without a radix argument, on any string: white
    space, a sign, the prefix 0x or 0X, then the digits of the radix; NaN
    when there is no digit, and -0 for a negative zero.  [JS.parseInt]
    above is this function on the captures of the duration parser. *)
Definition parseIntFull (s : string) : JS.number :=
  let trimmed := TrimStart s in
  let '(negative, unsigned) :=
    match trimmed with
    | String c rest =>
        if Ascii.eqb c "-" then (true, rest)
        else if Ascii.eqb c "+" then (false, rest)
        else (false, trimmed)
    | EmptyString => (false, trimmed)
    end in
  let '(radix, digits) :=
    match unsigned with
    | String c1 (String c2 rest) =>
        if (Ascii.eqb c1 "0" && (Ascii.eqb c2 "x" || Ascii.eqb c2 "X"))%bool
        then (16, rest) else (10, unsigned)
    | _ => (10, unsigned)
    end in
  match radix_value radix None digits with
  | None => PrimFloat.nan
  | Some mathInt =>
      if Z.eqb mathInt 0 then (if negative then PrimFloat.neg_zero else PrimFloat.zero)
      else JS.number_of_Z (if negative then - mathInt else mathInt)
  end.

End Text.

(** A [Headers] object: the header names in lower case, each with its
    value. *)
Definition Headers := gmap string string.

(** [headers.get(name)]: [None] stands for [null]. *)
Definition Headers_get (headers : Headers) (name : string) : option string :=
  headers !! name.

(** [function parseRateLimitHeaders(headers: Headers): RateLimitInfo].  The
    object literal makes a new object. *)
Definition parseRateLimitHeaders (headers : Headers) : js (ref RateLimitInfo) :=
  alloc
    {| limitRequests :=
         match Headers_get headers "x-ratelimit-limit-requests" with
         | Some text =>
             if JS.truthy (Headers_get headers "x-ratelimit-limit-requests")
             then Some (Text.parseIntFull text) else None
         | None => None
         end;
       limitTokens :=
         match Headers_get headers "x-ratelimit-limit-tokens" with
         | Some text =>
             if JS.truthy (Headers_get headers "x-ratelimit-limit-tokens")
             then Some (Text.parseIntFull text) else None
         | None => None
         end;
       remainingRequests :=
         match Headers_get headers "x-ratelimit-remaining-requests" with
         | Some text =>
             if JS.truthy (Headers_get headers "x-ratelimit-remaining-requests")
             then Some (Text.parseIntFull text) else None
         | None => None
         end;
       remainingTokens :=
         match Headers_get headers "x-ratelimit-remaining-tokens" with
         | Some text =>
             if JS.truthy (Headers_get headers "x-ratelimit-remaining-tokens")
             then Some (Text.parseIntFull text) else None
         | None => None
         end;
       resetRequests :=
         if JS.truthy (Headers_get headers "x-ratelimit-reset-requests")
         then Headers_get headers "x-ratelimit-reset-requests" else None;
       resetTokens :=
         if JS.truthy (Headers_get headers "x-ratelimit-reset-tokens")
         then Headers_get headers "x-ratelimit-reset-tokens" else None |}.

(** The four count headers and the two reset headers, each with the field
    it fills. *)
Definition count_headers : list (string * (RateLimitInfo -> option JS.number)) :=
  [("x-ratelimit-limit-requests", limitRequests);
   ("x-ratelimit-limit-tokens", limitTokens);
   ("x-ratelimit-remaining-requests", remainingRequests);
   ("x-ratelimit-remaining-tokens", remainingTokens)].

Definition reset_headers : list (string * (RateLimitInfo -> option string)) :=
  [("x-ratelimit-reset-requests", resetRequests);
   ("x-ratelimit-reset-tokens", resetTokens)].

(** A header that is missing or empty. *)
Definition blank (v : option string) : Prop := v = None \/ v = Some EmptyString.

(** The object of [parseRateLimitHeaders], field by field. *)
Definition count_field (v : option string) : option JS.number :=
  match v with
  | Some text => if JS.truthy v then Some (Text.parseIntFull text) else None
  | None => None
  end.

Definition reset_field (v : option string) : option string :=
  if JS.truthy v then v else None.

Definition parsed (headers : Headers) : RateLimitInfo :=
  {| limitRequests := count_field (Headers_get headers "x-ratelimit-limit-requests");
     limitTokens := count_field (Headers_get headers "x-ratelimit-limit-tokens");
     remainingRequests := count_field (Headers_get headers "x-ratelimit-remaining-requests");
     remainingTokens := count_field (Headers_get headers "x-ratelimit-remaining-tokens");
     resetRequests := reset_field (Headers_get headers "x-ratelimit-reset-requests");
     resetTokens := reset_field (Headers_get headers "x-ratelimit-reset-tokens") |}.

(** A count header that gives the advisor nothing to divide: it is
    missing, or its text has no number at the start (the empty text
    included). *)
Definition unusable_count (v : option string) : bool :=
  match v with
  | Some text => PrimFloat.is_nan (Text.parseIntFull text)
  | None => true
  end.

(** The headers of a dimension do not make a candidate: a count is
    unusable, or the reset header is missing or empty. *)
Definition incomplete (limit remaining reset : option string) : bool :=
  unusable_count limit || unusable_count remaining || negb (JS.truthy reset).

(** Headers of a response close to the request limit, and headers in
    which neither dimension is complete. *)
Definition example_headers : Headers :=
  {[ "x-ratelimit-limit-requests" := "500";
     "x-ratelimit-limit-tokens" := "30000";
     "x-ratelimit-remaining-requests" := "12";
     "x-ratelimit-remaining-tokens" := "29000";
     "x-ratelimit-reset-requests" := "2m";
     "x-ratelimit-reset-tokens" := EmptyString ]}.

Definition broken_headers : Headers :=
  {[ "x-ratelimit-limit-requests" := "unlimited";
     "x-ratelimit-remaining-requests" := "12";
     "x-ratelimit-reset-requests" := "2m";
     "x-ratelimit-limit-tokens" := "30000";
     "x-ratelimit-remaining-tokens" := "10" ]}.


(** A flagged result with five scores above 0.1, all different. *)
Definition crowded_result : ModerationResult :=
  result_in_canonical_order true
    (fun c => bool_decide (c = VIOLENCE))
    (fun c =>
       match c with
       | HATE => 0.2%float
       | HARASSMENT => 0.9%float
       | VIOLENCE => 0.6%float
       | SEXUAL => 0.3%float
       | ILLICIT => 0.4%float
       | _ => 0.01%float
       end).

(** ** Vocabulary of the further properties *)

Fixpoint ends_with_digit (s : string) : bool :=
  match s with
  | EmptyString => false
  | String c EmptyString => JS.is_digit c
  | String _ s' => ends_with_digit s'
  end.

(** The same object with the request fields and the token fields
    exchanged. *)
Definition swap_dimensions (info : RateLimitInfo) : RateLimitInfo :=
  {| limitRequests := limitTokens info;
     limitTokens := limitRequests info;
     remainingRequests := remainingTokens info;
     remainingTokens := remainingRequests info;
     resetRequests := resetTokens info;
     resetTokens := resetRequests info |}.

(** The ratio of a dimension equals the threshold, or one of the three
    numbers is NaN. *)
Definition at_the_edge (remaining limit threshold : JS.number) : Prop :=
  (remaining / limit =? threshold)%float = true \/
  PrimFloat.is_nan remaining = true \/
  PrimFloat.is_nan limit = true \/
  PrimFloat.is_nan threshold = true.

(** The score lines among the lines of the console. *)
Definition percent_lines (lines : list line) : list line :=
  List.filter (fun l => match l with Percent _ _ => true | Text _ => false end) lines.

Definition score_line (entry : ModerationCategory * JS.number) : line :=
  Percent (category_tag (fst entry)) (snd entry * 100)%float.

(** The lines that [analyzeResult] prints, read off its text. *)
Definition printed (r : ModerationResult) (inputText : string) : list line :=
  [Text ("Analysis for: " ++ excerpt 30 inputText);
   Text ("Flagged: " ++ (if flagged r then "YES" else "NO"))]
  ++ (if flagged r then
        Text ("Flagged Categories: "
              ++ join ", " (List.map category_tag
                              (List.map fst (List.filter is_flagged (categories r)))))
        :: (if (0 <? length (firstn 3 (sorted_high_scores r)))%nat
            then Text "Top Confidence Scores:"
                 :: List.map score_line (firstn 3 (sorted_high_scores r))
            else [])
      else [])
  ++ [Text EmptyString].

(** * Proofs *)

Open Scope Z_scope.

(** ** Binary64 arithmetic on integers that fit the mantissa *)

Module Binary64.

Lemma iter_pos_nat {A} (f : A -> A) (p : positive) (x : A) :
  SpecFloat.iter_pos f p x = Nat.iter (Pos.to_nat p) f x.
Proof.
  revert x. induction p as [p IH | p IH |]; intros x.
  - cbn [SpecFloat.iter_pos]. rewrite !IH, Pos2Nat.inj_xI.
    rewrite <- Nat.iter_succ_r, <- Nat.iter_add. f_equal. lia.
  - cbn [SpecFloat.iter_pos]. rewrite !IH, Pos2Nat.inj_xO, <- Nat.iter_add. f_equal. lia.
  - reflexivity.
Qed.

Lemma digits2_pos_bounds (p : positive) :
  2 ^ (Z.pos (digits2_pos p) - 1) <= Z.pos p < 2 ^ Z.pos (digits2_pos p).
Proof.
  induction p as [p IH | p IH |]; simpl digits2_pos.
  - rewrite Pos2Z.inj_succ.
    replace (Z.succ (Z.pos (digits2_pos p)) - 1) with (Z.succ (Z.pos (digits2_pos p) - 1)) by lia.
    rewrite !Z.pow_succ_r by lia. lia.
  - rewrite Pos2Z.inj_succ.
    replace (Z.succ (Z.pos (digits2_pos p)) - 1) with (Z.succ (Z.pos (digits2_pos p) - 1)) by lia.
    rewrite !Z.pow_succ_r by lia. lia.
  - simpl. lia.
Qed.

Lemma digits2_pos_unique (p : positive) (d : Z) :
  2 ^ (d - 1) <= Z.pos p < 2 ^ d -> Z.pos (digits2_pos p) = d.
Proof.
  intros [Hlo Hhi]. pose proof (digits2_pos_bounds p) as [Hlo' Hhi'].
  assert (0 < d).
  { destruct (Z.lt_trichotomy d 0) as [Hd | [Hd | Hd]]; [| |lia].
    - rewrite Z.pow_neg_r in Hhi by lia. lia.
    - subst d. simpl in Hhi. lia. }
  destruct (Z.lt_trichotomy (Z.pos (digits2_pos p)) d) as [Hc | [Hc | Hc]]; [|assumption|].
  - assert (2 ^ Z.pos (digits2_pos p) <= 2 ^ (d - 1)) by (apply Z.pow_le_mono_r; lia). lia.
  - assert (2 ^ d <= 2 ^ (Z.pos (digits2_pos p) - 1)) by (apply Z.pow_le_mono_r; lia). lia.
Qed.

(** Shifting out zeros loses nothing. *)
Lemma shr_exact (n : nat) : forall M m : positive,
  Z.pos M = Z.pos m * 2 ^ Z.of_nat n ->
  Nat.iter n shr_1 (Build_shr_record (Z.pos M) false false)
  = Build_shr_record (Z.pos m) false false.
Proof.
  induction n as [| n IH]; intros M m HM.
  - simpl in *. f_equal. lia.
  - rewrite Nat.iter_succ. rewrite (IH M (m~0)%positive).
    + reflexivity.
    + rewrite HM, Nat2Z.inj_succ, Z.pow_succ_r by lia. lia.
Qed.

(** A mantissa of 53 digits followed by [k] zeros is rounded to itself. *)
Lemma round_exact (M m : positive) (k e : Z) :
  0 <= k ->
  Z.pos M = Z.pos m * 2 ^ k ->
  Z.pos (digits2_pos m) = 53 ->
  -1074 <= e + k <= 971 ->
  binary_round_aux prec emax false (Z.pos M) e loc_Exact = S754_finite false m (e + k).
Proof.
  intros Hk HM Hd He.
  assert (HdM : Z.pos (digits2_pos M) = 53 + k).
  { apply digits2_pos_unique. pose proof (digits2_pos_bounds m) as Hb.
    rewrite Hd in Hb. rewrite HM.
    replace (53 + k - 1) with (52 + k) by lia.
    rewrite !Z.pow_add_r by lia.
    assert (0 < 2 ^ k) by (apply Z.pow_pos_nonneg; lia). simpl in Hb. nia. }
  unfold binary_round_aux, shr_fexp. simpl Zdigits2. rewrite HdM.
  unfold fexp, SpecFloat.emin, prec, emax.
  replace (Z.max (53 + k + e - 53) (3 - 1024 - 53) - e) with k by lia.
  assert (Hshr : shr (shr_record_of_loc (Z.pos M) loc_Exact) e k
                 = (Build_shr_record (Z.pos m) false false, e + k)).
  { unfold shr, shr_record_of_loc. destruct k as [| p | p]; [| | lia].
    - f_equal; [f_equal; lia | lia].
    - rewrite iter_pos_nat. f_equal. apply shr_exact.
      rewrite positive_nat_Z. exact HM. }
  rewrite Hshr. cbn [shr_m loc_of_shr_record round_nearest_even].
  simpl Zdigits2. rewrite Hd.
  replace (Z.max (53 + (e + k) - 53) (3 - 1024 - 53) - (e + k)) with 0 by lia.
  cbn [shr shr_record_of_loc shr_m].
  replace (e + k <=? 1024 - 53) with true by (symmetry; apply Z.leb_le; lia).
  reflexivity.
Qed.


Lemma pos_iter_xO (m d : positive) : Z.pos (Pos.iter xO m d) = Z.pos m * 2 ^ Z.pos d.
Proof.
  induction d as [| d IH] using Pos.peano_ind.
  - simpl. lia.
  - rewrite Pos.iter_succ, Pos2Z.inj_succ, Z.pow_succ_r by lia.
    rewrite Pos2Z.inj_xO, IH. lia.
Qed.

Lemma shl_align_spec (mx : positive) (ex ex' : Z) :
  ex' <= ex ->
  snd (shl_align mx ex ex') = ex' /\
  Z.pos (fst (shl_align mx ex ex')) = Z.pos mx * 2 ^ (ex - ex').
Proof.
  intros Hle. unfold shl_align. destruct (ex' - ex) as [| p | p] eqn:E; try lia.
  - simpl. replace (ex - ex') with 0 by lia. simpl. lia.
  - simpl. rewrite pos_iter_xO. split; [reflexivity|]. f_equal. f_equal. lia.
Qed.

Lemma digits2_pos_scaled (p m : positive) (j : Z) :
  0 <= j -> Z.pos m = Z.pos p * 2 ^ j ->
  Z.pos (digits2_pos m) = Z.pos (digits2_pos p) + j.
Proof.
  intros Hj Hm. pose proof (digits2_pos_bounds p) as Hb.
  apply digits2_pos_unique. rewrite Hm.
  replace (Z.pos (digits2_pos p) + j - 1) with ((Z.pos (digits2_pos p) - 1) + j) by lia.
  rewrite !Z.pow_add_r by lia.
  assert (0 < 2 ^ j) by (apply Z.pow_pos_nonneg; lia). nia.
Qed.


Lemma pow2_lt_inv (a b : Z) : 0 <= b -> 2 ^ a < 2 ^ b -> a < b.
Proof.
  intros Hb H. destruct (Z.lt_ge_cases a b) as [|Hge]; [assumption|].
  assert (2 ^ b <= 2 ^ a) by (apply Z.pow_le_mono_r; lia). lia.
Qed.

Lemma represents_inj (x y : spec_float) (n : Z) :
  represents x n -> represents y n -> x = y.
Proof.
  intros (m & e & -> & Hd & He & Hm) (m' & e' & -> & Hd' & He' & Hm').
  pose proof (digits2_pos_bounds m) as Hb. pose proof (digits2_pos_bounds m') as Hb'.
  rewrite Hd in Hb. rewrite Hd' in Hb'. change (2 ^ (53 - 1)) with (2 ^ 52) in *.
  assert (0 < n) by (assert (0 < 2 ^ (- e)) by (apply Z.pow_pos_nonneg; lia); nia).
  assert (e = e').
  { destruct (Z.lt_trichotomy e e') as [Hc | [Hc | Hc]]; [|assumption|]; exfalso.
    - assert (2 ^ (- e) = 2 ^ (- e') * 2 ^ (e' - e)) as Heq
        by (rewrite <- Z.pow_add_r by lia; f_equal; lia).
      assert (2 <= 2 ^ (e' - e)) by (change 2 with (2 ^ 1) at 1; apply Z.pow_le_mono_r; lia).
      rewrite Heq in Hm. nia.
    - assert (2 ^ (- e') = 2 ^ (- e) * 2 ^ (e - e')) as Heq
        by (rewrite <- Z.pow_add_r by lia; f_equal; lia).
      assert (2 <= 2 ^ (e - e')) by (change 2 with (2 ^ 1) at 1; apply Z.pow_le_mono_r; lia).
      rewrite Heq in Hm'. nia. }
  subst e'. f_equal. lia.
Qed.

Lemma represents_valid (x : spec_float) (n : Z) :
  represents x n -> valid_binary x = true.
Proof.
  intros (m & e & -> & Hd & He & Hm). simpl. unfold bounded, canonical_mantissa.
  rewrite Hd. unfold fexp, SpecFloat.emin, prec, emax.
  apply andb_true_intro; split; [apply Z.eqb_eq | apply Z.leb_le]; lia.
Qed.

Lemma normalize_represents (n : Z) :
  0 < n < 2 ^ 53 -> represents (binary_normalize prec emax n 0 false) n.
Proof.
  intros [Hpos Hlt]. destruct n as [| n | n]; try lia.
  unfold binary_normalize, binary_round.
  pose proof (digits2_pos_bounds n) as Hb.
  set (d := Z.pos (digits2_pos n)) in *.
  assert (Hd : 1 <= d <= 53).
  { split; [unfold d; lia|].
    assert (d - 1 < 53) by (apply pow2_lt_inv; lia). lia. }
  replace (fexp prec emax (d + 0)) with (d - 53)
    by (unfold fexp, SpecFloat.emin, prec, emax; lia).
  destruct (shl_align_spec n 0 (d - 53)) as [He Hm]; [lia|].
  destruct (shl_align n 0 (d - 53)) as [mz ez]. simpl in He, Hm. subst ez.
  assert (Hdz : Z.pos (digits2_pos mz) = 53).
  { rewrite (digits2_pos_scaled n mz (0 - (d - 53))); [fold d; lia | lia | exact Hm]. }
  rewrite (round_exact mz mz 0 (d - 53)); try lia.
  exists mz, (d - 53 + 0). repeat split; try lia.
  rewrite Hm. f_equal. f_equal. lia.
Qed.

Lemma mul_represents (x y : spec_float) (a b : Z) :
  represents x a -> represents y b -> a * b < 2 ^ 53 ->
  represents (SF64mul x y) (a * b).
Proof.
  intros (ma & ea & -> & Hda & Hea & Hma) (mb & eb & -> & Hdb & Heb & Hmb) Hlt.
  pose proof (digits2_pos_bounds ma) as Hba. pose proof (digits2_pos_bounds mb) as Hbb.
  rewrite Hda in Hba. rewrite Hdb in Hbb. change (2 ^ (53 - 1)) with (2 ^ 52) in *.
  assert (0 < a) by (assert (0 < 2 ^ (- ea)) by (apply Z.pow_pos_nonneg; lia); nia).
  assert (0 < b) by (assert (0 < 2 ^ (- eb)) by (apply Z.pow_pos_nonneg; lia); nia).
  assert (Hab : 0 < a * b) by nia.
  destruct (a * b) as [| ab | ab] eqn:Eab; try lia.
  pose proof (digits2_pos_bounds ab) as Hb.
  set (d := Z.pos (digits2_pos ab)) in *.
  assert (Hd : 1 <= d <= 53).
  { split; [unfold d; lia|].
    assert (d - 1 < 53) by (apply pow2_lt_inv; lia). lia. }
  assert (Hprod : Z.pos (ma * mb) = Z.pos ab * 2 ^ (- ea - eb)).
  { rewrite Pos2Z.inj_mul, Hma, Hmb, <- Eab.
    replace (- ea - eb) with (- ea + - eb) by lia. rewrite Z.pow_add_r by lia. ring. }
  assert (Hk : 104 < d - ea - eb).
  { assert (2 ^ 104 < 2 ^ (d - ea - eb)).
    { replace (d - ea - eb) with (d + (- ea - eb)) by lia.
      rewrite Z.pow_add_r by lia.
      assert (2 ^ 104 <= Z.pos (ma * mb)).
      { rewrite Pos2Z.inj_mul. change (2 ^ 104) with (2 ^ 52 * 2 ^ 52). nia. }
      assert (0 < 2 ^ (- ea - eb)) by (apply Z.pow_pos_nonneg; lia). nia. }
    apply pow2_lt_inv; lia. }
  set (m := Z.to_pos (Z.pos ab * 2 ^ (53 - d))).
  assert (Hm : Z.pos m = Z.pos ab * 2 ^ (53 - d)).
  { unfold m. rewrite Z2Pos.id; [reflexivity|].
    assert (0 < 2 ^ (53 - d)) by (apply Z.pow_pos_nonneg; lia). nia. }
  assert (Hdm : Z.pos (digits2_pos m) = 53).
  { rewrite (digits2_pos_scaled ab m (53 - d)); [fold d; lia | lia | exact Hm]. }
  unfold SF64mul, SFmul. cbn [xorb].
  rewrite (round_exact (ma * mb) m (d - ea - eb - 53) (ea + eb)); try lia.
  - exists m, (ea + eb + (d - ea - eb - 53)). repeat split; try lia.
    rewrite Hm. f_equal. f_equal. lia.
  - rewrite Hprod, Hm, <- Z.mul_assoc, <- Z.pow_add_r by lia. f_equal. f_equal. lia.
Qed.

(** On integers below 2^53 the conversion is exact, and so is a product
    that stays below 2^53. *)
Lemma number_of_Z_spec (n : Z) :
  0 < n < 2 ^ 53 ->
  Prim2SF (JS.number_of_Z n) = binary_normalize prec emax n 0 false.
Proof.
  intros Hn. unfold JS.number_of_Z. apply Prim2SF_SF2Prim.
  apply (represents_valid _ n), normalize_represents, Hn.
Qed.

Lemma mul_exact (a b : Z) :
  0 <= a -> 0 < b < 2 ^ 53 -> a * b < 2 ^ 53 ->
  (JS.number_of_Z a * JS.number_of_Z b)%float = JS.number_of_Z (a * b).
Proof.
  intros Ha Hb Hab.
  assert (a = 0 \/ 0 < a) as [-> | Hpos] by lia.
  - apply Prim2SF_inj. rewrite mul_spec, (number_of_Z_spec b) by lia.
    destruct (normalize_represents b Hb) as (m & e & -> & _). reflexivity.
  - assert (a < 2 ^ 53) by nia.
    apply Prim2SF_inj.
    rewrite mul_spec, !number_of_Z_spec by nia.
    apply (represents_inj _ _ (a * b)).
    + apply mul_represents; [apply normalize_represents; lia .. | assumption].
    + apply normalize_represents. nia.
Qed.

(** *** Signs *)


Lemma shr_1_nonneg (r : shr_record) : 0 <= shr_m r -> 0 <= shr_m (shr_1 r).
Proof. destruct r as [[| [p | p |] | p] r s]; simpl; lia. Qed.

Lemma shr_nonneg (r : shr_record) (e n : Z) :
  0 <= shr_m r -> 0 <= shr_m (fst (shr r e n)).
Proof.
  intros H. destruct n as [| p | p]; simpl; try assumption.
  rewrite iter_pos_nat. apply Nat.iter_invariant; [apply shr_1_nonneg | assumption].
Qed.

Lemma shr_fexp_nonneg (m e : Z) (l : location) :
  0 <= m -> 0 <= shr_m (fst (shr_fexp prec emax m e l)).
Proof.
  intros H. unfold shr_fexp. apply shr_nonneg.
  destruct l as [| []]; simpl; assumption.
Qed.

Lemma round_nearest_even_nonneg (m : Z) (l : location) :
  0 <= m -> 0 <= round_nearest_even m l.
Proof. intros H. destruct l as [| []]; simpl; try lia. destruct (Z.even m); lia. Qed.

Lemma binary_round_aux_nonneg (m e : Z) (l : location) :
  0 <= m -> nonneg_sf (binary_round_aux prec emax false m e l).
Proof.
  intros H. unfold binary_round_aux.
  pose proof (shr_fexp_nonneg m e l H) as H1.
  destruct (shr_fexp prec emax m e l) as [mrs' e']. simpl in H1.
  pose proof (shr_fexp_nonneg _ e' loc_Exact
                (round_nearest_even_nonneg _ (loc_of_shr_record mrs') H1)) as H2.
  destruct (shr_fexp prec emax _ e' loc_Exact) as [mrs'' e'']. simpl in H2.
  destruct (shr_m mrs'') as [| p | p]; simpl; try lia; try exact I.
  destruct (e'' <=? emax - prec); exact I.
Qed.

Lemma binary_round_nonneg (m : positive) (e : Z) :
  nonneg_sf (binary_round prec emax false m e).
Proof.
  unfold binary_round. destruct (shl_align m e _) as [mz ez].
  apply binary_round_aux_nonneg. lia.
Qed.

Lemma binary_normalize_nonneg (n e : Z) :
  0 <= n -> nonneg_sf (binary_normalize prec emax n e false).
Proof.
  intros H. destruct n as [| p | p]; simpl; [exact I | apply binary_round_nonneg | lia].
Qed.


Lemma SF2Prim_nonneg (x : spec_float) : nonneg_sf x -> nonneg (SF2Prim x).
Proof.
  unfold nonneg. destruct x as [[] | [] | | [] m e]; simpl; intros H; try contradiction;
    try exact I.
  rewrite Z_ldexp_spec, of_uint63_spec.
  pose proof (Uint63.to_Z_bounded (Uint63.of_Z (Z.pos m))) as [Hb _].
  pose proof (binary_normalize_nonneg _ 0 Hb) as Hn.
  destruct (binary_normalize prec emax _ 0 false) as [[] | [] | | [] m' e'];
    simpl in *; try contradiction; try exact I.
  apply binary_round_nonneg.
Qed.

Lemma number_of_Z_nonneg (n : Z) : 0 <= n -> nonneg (JS.number_of_Z n).
Proof. intros H. apply SF2Prim_nonneg, binary_normalize_nonneg, H. Qed.

(** Multiplying by a positive finite constant keeps the sign. *)
Lemma mul_nonneg (x c : JS.number) :
  nonneg x -> (exists m e, Prim2SF c = S754_finite false m e) -> nonneg (x * c)%float.
Proof.
  unfold nonneg. intros Hx (m & e & Hc). rewrite mul_spec, Hc.
  destruct (Prim2SF x) as [[] | [] | | [] mx ex]; simpl in *; try contradiction;
    try exact I.
  apply binary_round_aux_nonneg. lia.
Qed.

Lemma nonneg_not_nan (x : JS.number) : nonneg x -> PrimFloat.is_nan x = false.
Proof.
  unfold nonneg, PrimFloat.is_nan. rewrite FloatAxioms.eqb_spec.
  destruct (Prim2SF x) as [[] | [] | | [] m e]; simpl; try contradiction; try reflexivity.
  intros _. unfold SFeqb, SFcompare. rewrite Z.compare_refl.
  change (Pos.compare_cont Eq m m) with (Pos.compare m m). rewrite Pos.compare_refl.
  reflexivity.
Qed.

Lemma nonneg_leb (x : JS.number) : nonneg x -> (0 <=? x)%float = true.
Proof.
  unfold nonneg. rewrite FloatAxioms.leb_spec. change (Prim2SF 0) with (S754_zero false).
  destruct (Prim2SF x) as [[] | [] | | [] m e]; simpl; try contradiction; reflexivity.
Qed.

(** Among the non-negative numbers only +0 is not above 0. *)
Lemma nonneg_not_above_zero (x : JS.number) :
  nonneg x -> (0 <? x)%float = false -> x = 0%float.
Proof.
  unfold nonneg. rewrite FloatAxioms.ltb_spec. change (Prim2SF 0) with (S754_zero false).
  intros Hx Hlt. apply Prim2SF_inj. change (Prim2SF 0) with (S754_zero false).
  destruct (Prim2SF x) as [[] | [] | | [] m e]; simpl in *; try contradiction;
    try discriminate; reflexivity.
Qed.

Lemma Math_max_zero_l (x : JS.number) : nonneg x -> JS.Math_max 0%float x = x.
Proof.
  intros Hx. unfold JS.Math_max. rewrite (nonneg_not_nan x Hx).
  change (PrimFloat.is_nan 0) with false. change (JS.is_neg_zero 0%float) with false.
  rewrite andb_false_r.
  destruct (0 <? x)%float eqn:E; [reflexivity|].
  symmetry. apply nonneg_not_above_zero; assumption.
Qed.

Lemma Math_max_zero_r (x : JS.number) : nonneg x -> JS.Math_max x 0%float = x.
Proof.
  intros Hx. unfold JS.Math_max. rewrite (nonneg_not_nan x Hx).
  change (PrimFloat.is_nan 0) with false.
  assert (Hz : JS.is_neg_zero x = false).
  { unfold JS.is_neg_zero. destruct (PrimFloat.Leibniz.eqb x PrimFloat.neg_zero) eqn:E;
      [|reflexivity].
    apply FloatAxioms.Leibniz.eqb_spec in E. subst x. exfalso. exact Hx. }
  rewrite Hz, andb_false_r.
  assert (Hlt : (x <? 0)%float = false).
  { revert Hx. unfold nonneg. rewrite FloatAxioms.ltb_spec. change (Prim2SF 0) with (S754_zero false).
    destruct (Prim2SF x) as [[] | [] | | [] m e]; simpl; try contradiction; reflexivity. }
  rewrite Hlt. reflexivity.
Qed.

Lemma Math_max_nonneg (a b : JS.number) : nonneg a -> nonneg b -> nonneg (JS.Math_max a b).
Proof.
  intros Ha Hb. unfold JS.Math_max.
  rewrite (nonneg_not_nan a Ha), (nonneg_not_nan b Hb).
  destruct (_ && _); [assumption|]. destruct (a <? b)%float; assumption.
Qed.

(** *** Order and subtraction on positive numbers *)


Lemma bounded_inv (m : positive) (e : Z) :
  bounded prec emax m e = true ->
  -1074 <= e /\ Z.pos (digits2_pos m) <= 53 /\ (-1074 < e -> Z.pos (digits2_pos m) = 53).
Proof.
  unfold bounded, canonical_mantissa, fexp, SpecFloat.emin, prec, emax.
  intros H. apply andb_prop in H as [H _]. apply Z.eqb_eq in H. lia.
Qed.

Lemma shr_1_div2 (r : shr_record) : 0 <= shr_m r -> shr_m (shr_1 r) = shr_m r / 2.
Proof.
  destruct r as [[| [p | p |] | p] r s]; cbn [shr_m shr_1]; intros H; try lia.
  - reflexivity.
  - apply (Z.div_unique _ _ _ 1); lia.
  - apply (Z.div_unique _ _ _ 0); lia.
  - reflexivity.
Qed.

Lemma shr_iter_div (n : nat) (r : shr_record) :
  0 <= shr_m r ->
  0 <= shr_m (Nat.iter n shr_1 r) /\
  shr_m (Nat.iter n shr_1 r) = shr_m r / 2 ^ Z.of_nat n.
Proof.
  intros H. induction n as [| n [IH1 IH2]].
  - simpl. rewrite Z.div_1_r. auto.
  - rewrite Nat.iter_succ. split; [apply shr_1_nonneg, IH1|].
    rewrite shr_1_div2, IH2 by assumption.
    rewrite Nat2Z.inj_succ, Z.pow_succ_r, Z.div_div by lia.
    f_equal. lia.
Qed.

(** Rounding a positive mantissa at an exponent that is not below the
    smallest one never gives zero. *)
Lemma shr_fexp_pos (m e : Z) (l : location) :
  0 < m -> -1074 <= e ->
  0 < shr_m (fst (shr_fexp prec emax m e l)) /\ -1074 <= snd (shr_fexp prec emax m e l).
Proof.
  intros Hm He. unfold shr_fexp.
  assert (Hr : shr_m (shr_record_of_loc m l) = m) by (destruct l as [| []]; reflexivity).
  destruct m as [| p | p]; try lia. simpl Zdigits2.
  pose proof (digits2_pos_bounds p) as Hb.
  set (d := Z.pos (digits2_pos p)) in *.
  unfold fexp, SpecFloat.emin, prec, emax.
  destruct (Z.max (d + e - 53) (3 - 1024 - 53) - e) as [| n | n] eqn:En; simpl;
    try (rewrite Hr; lia).
  rewrite iter_pos_nat.
  destruct (shr_iter_div (Pos.to_nat n) (shr_record_of_loc (Z.pos p) l)) as [_ Hdiv];
    [rewrite Hr; lia|].
  rewrite Hdiv, Hr, positive_nat_Z. split; [|lia].
  assert (Hn : Z.pos n = d - 53) by lia.
  apply Z.lt_le_trans with (2 ^ 52); [reflexivity|].
  apply Z.div_le_lower_bound; [apply Z.pow_pos_nonneg; lia|].
  rewrite <- Z.pow_add_r by lia. rewrite Hn.
  replace (d - 53 + 52) with (d - 1) by lia. lia.
Qed.


Lemma binary_round_pos (m : positive) (e : Z) :
  -1074 <= e -> strictly_pos_sf (binary_round prec emax false m e).
Proof.
  intros He. unfold binary_round.
  assert (Hz : -1074 <= snd (shl_align m e (fexp prec emax (Z.pos (digits2_pos m) + e)))).
  { unfold shl_align. destruct (_ - e) eqn:E; simpl; try lia.
    unfold fexp, SpecFloat.emin, prec, emax. lia. }
  destruct (shl_align m e _) as [mz ez]. simpl in Hz.
  unfold binary_round_aux.
  destruct (shr_fexp_pos (Z.pos mz) ez loc_Exact) as [H1 H1e]; [lia | lia |].
  destruct (shr_fexp prec emax (Z.pos mz) ez loc_Exact) as [mrs' e']. simpl in H1, H1e.
  assert (H2 : 0 < round_nearest_even (shr_m mrs') (loc_of_shr_record mrs')).
  { destruct (loc_of_shr_record mrs') as [| []]; simpl; try lia.
    destruct (Z.even (shr_m mrs')); lia. }
  destruct (shr_fexp_pos _ e' loc_Exact H2 H1e) as [H3 _].
  destruct (shr_fexp prec emax _ e' loc_Exact) as [mrs'' e'']. simpl in H3.
  destruct (shr_m mrs'') as [| p | p]; try lia.
  destruct (e'' <=? emax - prec); exact I.
Qed.

Lemma binary_round_neg (m : positive) (e : Z) :
  SFltb (S754_zero false) (binary_round prec emax true m e) = false.
Proof.
  unfold binary_round. destruct (shl_align m e _) as [mz ez].
  unfold binary_round_aux.
  destruct (shr_fexp prec emax (Z.pos mz) ez loc_Exact) as [mrs' e'].
  destruct (shr_fexp prec emax _ e' loc_Exact) as [mrs'' e''].
  destruct (shr_m mrs'') as [| p | p]; try reflexivity.
  destruct (e'' <=? emax - prec); reflexivity.
Qed.

(** On positive numbers the sign of [y - x] tells whether [x < y]. *)
Lemma sub_sign_sf (X Y : spec_float) :
  pos_sf X -> pos_sf Y ->
  SFltb (S754_zero false) (SF64sub Y X) = SFltb X Y.
Proof.
  destruct X as [[] | [] | | [] mx ex]; simpl; try contradiction;
  destruct Y as [[] | [] | | [] my ey]; simpl; try contradiction;
    try reflexivity.
  intros HX HY.
  apply bounded_inv in HX as (Hex & Hdx & Hnx), HY as (Hey & Hdy & Hny).
  pose proof (digits2_pos_bounds mx) as Hbx. pose proof (digits2_pos_bounds my) as Hby.
  unfold SF64sub, SFsub, SFltb, SFcompare. cbn [cond_Zopp].
  destruct (shl_align_spec my ey (Z.min ey ex)) as [_ Hmy]; [lia|].
  destruct (shl_align_spec mx ex (Z.min ey ex)) as [_ Hmx]; [lia|].
  set (My := fst (shl_align my ey (Z.min ey ex))) in *.
  set (Mx := fst (shl_align mx ex (Z.min ey ex))) in *.
  assert (Hcmp : (Z.pos Mx ?= Z.pos My) =
                 match ex ?= ey with
                 | Eq => Pos.compare_cont Eq mx my
                 | c => c
                 end).
  { destruct (Z.compare_spec ex ey) as [E | E | E].
    - subst ey. rewrite Hmy, Hmx, Z.min_id, Z.sub_diag. simpl.
      rewrite !Pos.mul_1_r. reflexivity.
    - apply Z.compare_lt_iff. rewrite Hmy, Hmx.
      rewrite Z.min_r, Z.sub_diag by lia. change (2 ^ 0) with 1. rewrite Z.mul_1_r.
      rewrite Hny in Hby by lia. change (53 - 1) with 52 in Hby.
      assert (2 ^ 1 <= 2 ^ (ey - ex)) by (apply Z.pow_le_mono_r; lia).
      assert (Z.pos mx < 2 ^ 53).
      { apply Z.lt_le_trans with (2 ^ Z.pos (digits2_pos mx)); [lia|].
        apply Z.pow_le_mono_r; lia. }
      change (2 ^ 1) with 2 in *. change (2 ^ 53) with (2 * 2 ^ 52) in *. nia.
    - apply Z.compare_gt_iff. rewrite Hmy, Hmx.
      rewrite Z.min_l, Z.sub_diag by lia. change (2 ^ 0) with 1. rewrite Z.mul_1_r.
      rewrite Hnx in Hbx by lia. change (53 - 1) with 52 in Hbx.
      assert (2 ^ 1 <= 2 ^ (ex - ey)) by (apply Z.pow_le_mono_r; lia).
      assert (Z.pos my < 2 ^ 53).
      { apply Z.lt_le_trans with (2 ^ Z.pos (digits2_pos my)); [lia|].
        apply Z.pow_le_mono_r; lia. }
      change (2 ^ 1) with 2 in *. change (2 ^ 53) with (2 * 2 ^ 52) in *. nia. }
  destruct (Z.pos My - Z.pos Mx) as [| D | D] eqn:ED.
  - assert (E : (Z.pos Mx ?= Z.pos My) = Eq) by (apply Z.compare_eq_iff; lia).
    rewrite E in Hcmp. simpl.
    destruct (ex ?= ey); try discriminate. rewrite <- Hcmp. reflexivity.
  - assert (E : (Z.pos Mx ?= Z.pos My) = Lt) by (apply Z.compare_lt_iff; lia).
    rewrite E in Hcmp. simpl binary_normalize.
    pose proof (binary_round_pos D (Z.min ey ex)) as Hp.
    destruct (binary_round prec emax false D (Z.min ey ex)) as [[] | [] | | [] m e];
      try (exfalso; apply Hp; lia); simpl;
      (destruct (ex ?= ey); try discriminate; try reflexivity;
       rewrite <- Hcmp; reflexivity).
  - assert (E : (Z.pos Mx ?= Z.pos My) = Gt) by (apply Z.compare_gt_iff; lia).
    rewrite E in Hcmp. simpl binary_normalize.
    pose proof (binary_round_neg D (Z.min ey ex)) as Hn. unfold SFltb, SFcompare in Hn.
    rewrite Hn.
    destruct (ex ?= ey); try discriminate; try reflexivity.
    rewrite <- Hcmp. reflexivity.
Qed.

Ltac compare_cases :=
  repeat match goal with
  | |- context [Pos.compare_cont Eq ?a ?b] =>
      change (Pos.compare_cont Eq a b) with (Pos.compare a b)
  | H : context [Pos.compare_cont Eq ?a ?b] |- _ =>
      change (Pos.compare_cont Eq a b) with (Pos.compare a b) in H
  end;
  repeat match goal with
  | |- context [Z.compare ?a ?b] => destruct (Z.compare_spec a b)
  | H : context [Z.compare ?a ?b] |- _ => destruct (Z.compare_spec a b)
  | |- context [Pos.compare ?a ?b] => destruct (Pos.compare_spec a b)
  | H : context [Pos.compare ?a ?b] |- _ => destruct (Pos.compare_spec a b)
  end;
  subst; try discriminate; try reflexivity; try lia.

Lemma SFltb_false_leb (X Y : spec_float) :
  pos_sf X -> pos_sf Y -> SFltb X Y = false -> SFleb Y X = true.
Proof.
  destruct X as [[] | [] | | [] mx ex]; simpl; try contradiction;
  destruct Y as [[] | [] | | [] my ey]; simpl; try contradiction;
    intros _ _; unfold SFltb, SFleb, SFcompare; try discriminate; try reflexivity.
  compare_cases.
Qed.

Lemma SFltb_leb (X Y : spec_float) :
  pos_sf X -> pos_sf Y -> SFltb X Y = true -> SFleb X Y = true.
Proof.
  destruct X as [[] | [] | | [] mx ex]; simpl; try contradiction;
  destruct Y as [[] | [] | | [] my ey]; simpl; try contradiction;
    intros _ _; unfold SFltb, SFleb, SFcompare; try discriminate; try reflexivity.
  compare_cases.
Qed.

Lemma SFleb_trans (X Y W : spec_float) :
  pos_sf X -> pos_sf Y -> pos_sf W ->
  SFleb X Y = true -> SFleb Y W = true -> SFleb X W = true.
Proof.
  destruct X as [[] | [] | | [] mx ex]; simpl; try contradiction;
  destruct Y as [[] | [] | | [] my ey]; simpl; try contradiction;
  destruct W as [[] | [] | | [] mw ew]; simpl; try contradiction;
    intros _ _ _; unfold SFleb, SFcompare; try discriminate; try reflexivity.
  compare_cases.
Qed.

(** Equal numbers are not ordered strictly. *)
Lemma SFeqb_not_ltb (X Y S : spec_float) :
  pos_sf X -> pos_sf Y ->
  SFeqb X S = true -> SFeqb Y S = true -> SFltb X Y = false.
Proof.
  destruct X as [[] | [] | | [] mx ex]; simpl; try contradiction;
  destruct Y as [[] | [] | | [] my ey]; simpl; try contradiction;
  destruct S as [[] | [] | | [] ms es]; simpl;
    intros _ _; unfold SFltb, SFeqb, SFcompare; try discriminate; try reflexivity.
  compare_cases.
Qed.


Lemma above_tenth_positive (x : JS.number) :
  (0.1 <? x)%float = true -> positive_number x.
Proof.
  unfold positive_number. rewrite FloatAxioms.ltb_spec.
  pose proof (Prim2SF_valid x) as Hv.
  destruct (Prim2SF x) as [[] | [] | | [] m e]; simpl in *;
    try discriminate; try (intros _; exact I); intros _; exact Hv.
Qed.

Lemma sub_sign (x y : JS.number) :
  positive_number x -> positive_number y ->
  (0 <? y - x)%float = (x <? y)%float.
Proof.
  intros Hx Hy. rewrite !FloatAxioms.ltb_spec, sub_spec.
  change (Prim2SF 0) with (S754_zero false). apply sub_sign_sf; assumption.
Qed.

Lemma ltb_false_leb (x y : JS.number) :
  positive_number x -> positive_number y ->
  (x <? y)%float = false -> (y <=? x)%float = true.
Proof.
  rewrite FloatAxioms.ltb_spec, FloatAxioms.leb_spec. apply SFltb_false_leb.
Qed.

Lemma ltb_leb (x y : JS.number) :
  positive_number x -> positive_number y ->
  (x <? y)%float = true -> (x <=? y)%float = true.
Proof.
  rewrite FloatAxioms.ltb_spec, FloatAxioms.leb_spec. apply SFltb_leb.
Qed.

Lemma leb_trans (x y z : JS.number) :
  positive_number x -> positive_number y -> positive_number z ->
  (x <=? y)%float = true -> (y <=? z)%float = true -> (x <=? z)%float = true.
Proof.
  rewrite !FloatAxioms.leb_spec. apply SFleb_trans.
Qed.

Lemma eqb_not_ltb (x y s : JS.number) :
  positive_number x -> positive_number y ->
  (x =? s)%float = true -> (y =? s)%float = true -> (x <? y)%float = false.
Proof.
  rewrite !FloatAxioms.eqb_spec, FloatAxioms.ltb_spec. apply SFeqb_not_ltb.
Qed.

(** Integers below 2^53 are held exactly. *)
Lemma integer_of_number_of_Z (n : Z) :
  0 <= n < 2 ^ 53 -> integer_of (JS.number_of_Z n) = Some n.
Proof.
  intros [Hlo Hhi]. assert (n = 0 \/ 0 < n) as [-> | Hpos] by lia; [reflexivity|].
  unfold integer_of. rewrite number_of_Z_spec by lia.
  destruct (normalize_represents n (conj Hpos Hhi)) as (m & e & -> & _ & He & Hm).
  assert (0 < 2 ^ (- e)) by (apply Z.pow_pos_nonneg; lia).
  destruct (Z.leb_spec 0 e).
  - replace e with 0 in * by lia. simpl in Hm. f_equal. simpl. lia.
  - rewrite Hm, Z.mod_mul, Z.div_mul by lia. simpl. f_equal. lia.
Qed.

End Binary64.

(** ** The regular expression and the duration parser *)

Module Duration.

Lemma unit_not_digit (u : ascii) : JS.is_unit u = true -> JS.is_digit u = false.
Proof.
  unfold JS.is_unit.
  destruct u as [[] [] [] [] [] [] [] []]; try discriminate; reflexivity.
Qed.

Lemma match_here_unit (u : ascii) (rest : string) :
  JS.is_unit u = true -> JS.match_here (String u rest) = None.
Proof. intros H. simpl. rewrite (unit_not_digit u H). reflexivity. Qed.

(** On a digit run that is followed by a unit letter, the pattern takes the
    whole run. *)
Lemma match_here_digits (ds : string) (u : ascii) (rest : string) :
  ds <> EmptyString -> all_digits ds = true -> JS.is_unit u = true ->
  JS.match_here (ds ++ String u rest) = Some (ds, u).
Proof.
  intros Hne Hds Hu. induction ds as [| c ds IH]; [congruence|].
  simpl in Hds. apply andb_prop in Hds as [Hc Hds].
  change (String c ds ++ String u rest) with (String c (ds ++ String u rest)).
  cbn [JS.match_here]. rewrite Hc.
  destruct ds as [| c' ds'].
  - change (EmptyString ++ String u rest) with (String u rest).
    rewrite (match_here_unit u rest Hu), Hu. reflexivity.
  - rewrite IH by (assumption || discriminate). reflexivity.
Qed.

(** What the pattern captures is a non-empty digit run and a unit letter. *)
Lemma match_here_captures (s ds : string) (u : ascii) :
  JS.match_here s = Some (ds, u) ->
  ds <> EmptyString /\ all_digits ds = true /\ JS.is_unit u = true.
Proof.
  revert ds u. induction s as [| c s IH]; intros ds u H; [discriminate|].
  cbn [JS.match_here] in H. destruct (JS.is_digit c) eqn:Hc; [|discriminate].
  destruct (JS.match_here s) as [[ds' u'] |] eqn:Hs.
  - injection H as <- <-. destruct (IH ds' u' eq_refl) as (_ & Hds & Hu).
    repeat split; [discriminate | simpl; rewrite Hc, Hds; reflexivity | assumption].
  - destruct s as [| u' s']; [discriminate|].
    destruct (JS.is_unit u') eqn:Hu; [|discriminate].
    injection H as <- <-.
    repeat split; [discriminate | simpl; rewrite Hc; reflexivity | assumption].
Qed.

Lemma match_here_token (s ds : string) (u : ascii) :
  JS.match_here s = Some (ds, u) -> has_duration_token s = true.
Proof.
  revert ds u. induction s as [| c s IH]; intros ds u H; [discriminate|].
  cbn [JS.match_here] in H. destruct (JS.is_digit c) eqn:Hc; [|discriminate].
  cbn [has_duration_token].
  destruct (JS.match_here s) as [[ds' u'] |] eqn:Hs.
  - rewrite (IH ds' u' eq_refl). apply orb_true_r.
  - destruct s as [| u' s']; [discriminate|].
    destruct (JS.is_unit u') eqn:Hu; [|discriminate].
    rewrite Hc. reflexivity.
Qed.

Lemma String_match_token (s : string) (a : JS.match_array) :
  JS.String_match s = Some a -> has_duration_token s = true.
Proof.
  induction s as [| c s IH]; [discriminate|].
  cbn [JS.String_match].
  destruct (JS.match_here (String c s)) as [[ds u] |] eqn:Hm.
  - intros _. apply (match_here_token _ ds u Hm).
  - intros H. cbn [has_duration_token]. rewrite (IH H). apply orb_true_r.
Qed.

Lemma String_match_captures (s : string) (a : JS.match_array) :
  JS.String_match s = Some a ->
  exists ds u, JS.capture1 a = ds /\ JS.capture2 a = String u EmptyString /\
               ds <> EmptyString /\ all_digits ds = true /\ JS.is_unit u = true.
Proof.
  induction s as [| c s IH].
  - discriminate.
  - cbn [JS.String_match].
    destruct (JS.match_here (String c s)) as [[ds u] |] eqn:Hm.
    + intros [= <-]. exists ds, u. simpl.
      destruct (match_here_captures _ ds u Hm) as (? & ? & ?). auto.
    + exact IH.
Qed.

(** A string with a token is matched, and only such a string. *)
Lemma String_match_iff_token (s : string) :
  has_duration_token s = true <-> JS.String_match s <> None.
Proof.
  split.
  - induction s as [| c s IH]; [discriminate|].
    cbn [has_duration_token JS.String_match]. intros H.
    destruct (JS.match_here (String c s)) as [[ds v] |] eqn:Hm; [discriminate|].
    apply orb_prop in H as [H | H]; [|exact (IH H)].
    destruct s as [| u s']; [discriminate|].
    apply andb_prop in H as [Hd Hu].
    cbn [JS.match_here] in Hm. rewrite Hd, (unit_not_digit u Hu), Hu in Hm.
    discriminate.
  - destruct (JS.String_match s) as [a |] eqn:E; [|congruence].
    intros _. apply (String_match_token s a E).
Qed.

Lemma String_match_no_token (s : string) :
  has_duration_token s = false -> JS.String_match s = None.
Proof.
  intros H. destruct (JS.String_match s) as [a |] eqn:E; [|reflexivity].
  rewrite (String_match_token s a E) in H. discriminate.
Qed.

Lemma String_match_duration_text (ds : string) (u : ascii) :
  ds <> EmptyString -> all_digits ds = true -> JS.is_unit u = true ->
  JS.String_match (duration_text ds u)
  = Some (JS.MatchArray (duration_text ds u) ds (String u EmptyString)).
Proof.
  intros Hne Hds Hu. unfold duration_text.
  destruct ds as [| c ds]; [congruence|].
  change (String c ds ++ String u EmptyString) with (String c (ds ++ String u EmptyString)).
  cbn [JS.String_match].
  change (String c (ds ++ String u EmptyString)) with (String c ds ++ String u EmptyString).
  rewrite match_here_digits by assumption. reflexivity.
Qed.

Lemma digits_value_nonneg (s : string) (acc : Z) :
  0 <= acc -> 0 <= JS.digits_value acc s.
Proof.
  revert acc. induction s as [| c s IH]; intros acc H; simpl; [assumption|].
  destruct (JS.is_digit c) eqn:Hc; [|assumption].
  apply IH. unfold JS.is_digit in Hc. apply andb_prop in Hc as [Hlo _].
  apply N.leb_le in Hlo. lia.
Qed.

Lemma parseInt_digits (ds : string) :
  ds <> EmptyString -> all_digits ds = true ->
  JS.parseInt ds = JS.number_of_Z (integer_value ds).
Proof.
  intros Hne Hds. destruct ds as [| c ds]; [congruence|].
  simpl in Hds. apply andb_prop in Hds as [Hc _].
  unfold JS.parseInt. rewrite Hc. reflexivity.
Qed.

(** The parser hands the statements it reaches to the caller: it never
    throws and leaves the heap and the console alone. *)
Lemma parseTimeToMs_returns (timeStr : string) (w : world) :
  parseTimeToMs timeStr w = Returned (milliseconds timeStr) w.
Proof.
  unfold parseTimeToMs, milliseconds.
  destruct (JS.String_match timeStr) as [a |]; [|reflexivity].
  rewrite bool_decide_eq_true_2 by (eexists; reflexivity).
  cbn [negb element]. unfold mbind, js_bind, mret, js_ret.
  destruct (String.eqb (JS.capture2 a) "s"); [reflexivity|].
  destruct (String.eqb (JS.capture2 a) "m"); [reflexivity|].
  destruct (String.eqb (JS.capture2 a) "h"); reflexivity.
Qed.

Lemma unit_cases (u : ascii) :
  JS.is_unit u = true -> u = "s"%char \/ u = "m"%char \/ u = "h"%char.
Proof.
  unfold JS.is_unit.
  destruct u as [[] [] [] [] [] [] [] []]; try discriminate; auto.
Qed.

(** The value for a text of the form <digits><unit>, in the arithmetic of
    the source. *)
Lemma milliseconds_duration_text (ds : string) (u : ascii) :
  ds <> EmptyString -> all_digits ds = true -> JS.is_unit u = true ->
  milliseconds (duration_text ds u) =
    let value := JS.parseInt ds in
    if Ascii.eqb u "s" then (value * 1000)%float
    else if Ascii.eqb u "m" then (value * 60 * 1000)%float
    else (value * 60 * 60 * 1000)%float.
Proof.
  intros Hne Hds Hu. unfold milliseconds.
  rewrite String_match_duration_text by assumption. cbn [JS.capture1 JS.capture2].
  destruct (unit_cases u Hu) as [-> | [-> | ->]]; reflexivity.
Qed.

Lemma milliseconds_exact (ds : string) (u : ascii) :
  ds <> EmptyString -> all_digits ds = true -> JS.is_unit u = true ->
  integer_value ds * multiplier u < 2 ^ 53 ->
  milliseconds (duration_text ds u) = JS.number_of_Z (integer_value ds * multiplier u).
Proof.
  intros Hne Hds Hu Hlt. rewrite milliseconds_duration_text by assumption.
  rewrite parseInt_digits by assumption.
  pose proof (digits_value_nonneg ds 0 (Z.le_refl 0)) as Hv. fold (integer_value ds) in Hv.
  cbv zeta.
  destruct (unit_cases u Hu) as [-> | [-> | ->]]; cbn [Ascii.eqb Bool.eqb multiplier] in *.
  - change 1000%float with (JS.number_of_Z 1000).
    apply Binary64.mul_exact; lia.
  - change 60%float with (JS.number_of_Z 60). change 1000%float with (JS.number_of_Z 1000).
    rewrite Binary64.mul_exact by lia. rewrite Binary64.mul_exact by lia.
    f_equal. lia.
  - change 60%float with (JS.number_of_Z 60). change 1000%float with (JS.number_of_Z 1000).
    rewrite Binary64.mul_exact by lia. rewrite Binary64.mul_exact by lia.
    rewrite Binary64.mul_exact by lia. f_equal. lia.
Qed.

Lemma literal_finite_1000 : exists m e, Prim2SF 1000 = S754_finite false m e.
Proof. eexists _, _. vm_compute. reflexivity. Qed.

Lemma literal_finite_60 : exists m e, Prim2SF 60 = S754_finite false m e.
Proof. eexists _, _. vm_compute. reflexivity. Qed.

(** Whatever the text, the parser's value is +0, positive or +Infinity. *)
Lemma milliseconds_nonneg (timeStr : string) : nonneg (milliseconds timeStr).
Proof.
  unfold milliseconds.
  destruct (JS.String_match timeStr) as [a |] eqn:E; [|exact I].
  destruct (String_match_captures _ _ E) as (ds & u & -> & _ & Hne & Hds & _).
  rewrite parseInt_digits by assumption.
  pose proof (Binary64.number_of_Z_nonneg (integer_value ds)
                (digits_value_nonneg ds 0 (Z.le_refl 0))) as Hn.
  cbv zeta.
  repeat match goal with
  | |- context [if ?b then _ else _] => destruct b
  end;
  repeat (apply Binary64.mul_nonneg;
          [| first [exact literal_finite_1000 | exact literal_finite_60]]);
  first [exact Hn | exact I].
Qed.



End Duration.

(** ** The rate-limit advisor *)

Module Advisor.

(** The advisor reads the object behind its argument and nothing else; it
    returns, and the world is as before. *)
Lemma shouldWaitForRateLimit_returns (rateLimitInfo : ref RateLimitInfo)
    (threshold : option JS.number) (info : RateLimitInfo) (w : world) :
  heap w !! addr rateLimitInfo = Some (CRateLimitInfo info) ->
  shouldWaitForRateLimit rateLimitInfo threshold w
  = Returned (advised_wait info threshold) w.
Proof.
  intros H. unfold shouldWaitForRateLimit, advised_wait, checked_wait.
  unfold mbind at 1. unfold js_bind at 1. unfold load.
  rewrite H. cbn [of_cell Storable_RateLimitInfo]. cbv zeta.
  destruct info as [lr lt rr rt sr st]. cbn [remainingRequests limitRequests resetRequests
    remainingTokens limitTokens resetTokens].
  set (t := default default_threshold threshold).
  assert (Hblock : forall (remaining limit : option JS.number) (reset : option string)
            (waitTime : JS.number) (k : JS.number -> js JS.number),
            (match remaining, limit with
             | Some remaining, Some limit =>
                 match reset with
                 | Some text =>
                     if (remaining / limit <? t)%float && JS.truthy reset
                     then t' ← parseTimeToMs text; mret (JS.Math_max waitTime t')
                     else mret waitTime
                 | None => mret waitTime
                 end
             | _, _ => mret waitTime
             end ≫= k) w
            = k (match remaining, limit, reset with
                 | Some remaining, Some limit, Some text =>
                     if (remaining / limit <? t)%float && JS.truthy reset
                     then JS.Math_max waitTime (milliseconds text)
                     else waitTime
                 | _, _, _ => waitTime
                 end) w).
  { intros [r |] [l |] [s |] wt k; try reflexivity.
    destruct ((r / l <? t)%float && JS.truthy (Some s)); [|reflexivity].
    unfold mbind, js_bind. rewrite Duration.parseTimeToMs_returns. reflexivity. }
  rewrite Hblock, Hblock. reflexivity.
Qed.

Lemma checked_wait_candidate (remaining limit : option JS.number) (reset : option string)
    (threshold waitTime : JS.number) :
  nonneg waitTime ->
  checked_wait remaining limit reset threshold waitTime =
    match candidate_wait remaining limit reset threshold with
    | None => waitTime
    | Some c => JS.Math_max waitTime c
    end.
Proof.
  intros Hw. unfold checked_wait, candidate_wait.
  destruct remaining as [r |], limit as [l |], reset as [s |]; try reflexivity.
  destruct (r / l <? threshold)%float; [|reflexivity].
  cbn [andb JS.truthy]. destruct (String.eqb_spec s EmptyString) as [-> | Hne]; cbn [negb].
  - change (milliseconds EmptyString) with 0%float.
    symmetry. apply Binary64.Math_max_zero_r, Hw.
  - reflexivity.
Qed.

Lemma candidate_wait_nonneg (remaining limit : option JS.number) (reset : option string)
    (threshold c : JS.number) :
  candidate_wait remaining limit reset threshold = Some c -> nonneg c.
Proof.
  unfold candidate_wait.
  destruct remaining as [r |], limit as [l |], reset as [s |]; try discriminate.
  destruct (r / l <? threshold)%float; [|discriminate].
  intros [= <-]. apply Duration.milliseconds_nonneg.
Qed.

Lemma Math_max_larger (a b : JS.number) :
  nonneg a -> nonneg b -> JS.Math_max a b = larger a b.
Proof.
  intros Ha Hb. unfold JS.Math_max, larger.
  rewrite (Binary64.nonneg_not_nan a Ha), (Binary64.nonneg_not_nan b Hb).
  assert (Hz : JS.is_neg_zero a = false).
  { unfold JS.is_neg_zero. destruct (PrimFloat.Leibniz.eqb a PrimFloat.neg_zero) eqn:E;
      [|reflexivity].
    apply FloatAxioms.Leibniz.eqb_spec in E. subst a. exfalso. exact Ha. }
  rewrite Hz, andb_false_r. reflexivity.
Qed.

(** The advisor's value is the maximum of the candidate waits. *)
Lemma advised_wait_maximum (info : RateLimitInfo) (threshold : option JS.number) :
  advised_wait info threshold =
    let t := default default_threshold threshold in
    maximum_candidate
      (candidate_wait (remainingRequests info) (limitRequests info) (resetRequests info) t)
      (candidate_wait (remainingTokens info) (limitTokens info) (resetTokens info) t).
Proof.
  unfold advised_wait. cbv zeta.
  set (t := default default_threshold threshold).
  rewrite (checked_wait_candidate _ _ (resetRequests info) t 0%float) by exact I.
  destruct (candidate_wait (remainingRequests info) _ _ t) as [a |] eqn:Ea.
  - pose proof (candidate_wait_nonneg _ _ _ _ _ Ea) as Ha.
    rewrite (Binary64.Math_max_zero_l a Ha).
    rewrite checked_wait_candidate by exact Ha.
    destruct (candidate_wait (remainingTokens info) _ _ t) as [b |] eqn:Eb; [|reflexivity].
    apply Math_max_larger; [exact Ha | exact (candidate_wait_nonneg _ _ _ _ _ Eb)].
  - rewrite checked_wait_candidate by exact I.
    destruct (candidate_wait (remainingTokens info) _ _ t) as [b |] eqn:Eb; [|reflexivity].
    apply Binary64.Math_max_zero_l. exact (candidate_wait_nonneg _ _ _ _ _ Eb).
Qed.

Lemma maximum_candidate_nonneg (c1 c2 : option JS.number) :
  (forall a, c1 = Some a -> nonneg a) -> (forall b, c2 = Some b -> nonneg b) ->
  nonneg (maximum_candidate c1 c2).
Proof.
  intros H1 H2. destruct c1 as [a |], c2 as [b |]; simpl; auto; [|exact I].
  unfold larger. destruct (a <? b)%float; auto.
Qed.







End Advisor.

(** ** Sorting by descending score *)

Module Sorting.

Section General.
Context {A : Type} (comparefn : A -> A -> JS.number).

Lemma sort_insert_perm (x : A) (l : list A) :
  Permutation (JS.sort_insert comparefn x l) (x :: l).
Proof.
  induction l as [| y l IH]; simpl; [reflexivity|].
  destruct (0 <? comparefn x y)%float; [|reflexivity].
  rewrite IH. apply perm_swap.
Qed.

Lemma Array_sorted_perm (l : list A) : Permutation (JS.Array_sorted comparefn l) l.
Proof.
  induction l as [| x l IH]; simpl; [reflexivity|].
  rewrite sort_insert_perm. apply perm_skip, IH.
Qed.
End General.

Lemma high_positive (e : ModerationCategory * JS.number) :
  is_high e = true -> positive_number (snd e).
Proof. destruct e as [c s]. apply Binary64.above_tenth_positive. Qed.

Lemma insert_test (x y : ModerationCategory * JS.number) :
  is_high x = true -> is_high y = true ->
  (0 <? by_score_descending x y)%float = (snd x <? snd y)%float.
Proof.
  intros Hx Hy. apply high_positive in Hx, Hy. destruct x as [c a], y as [d b].
  apply Binary64.sub_sign; assumption.
Qed.

Lemma sort_insert_sorted (x : ModerationCategory * JS.number)
    (l : list (ModerationCategory * JS.number)) :
  is_high x = true -> Forall (fun e => is_high e = true) l ->
  StronglySorted descending l ->
  StronglySorted descending (JS.sort_insert by_score_descending x l).
Proof.
  intros Hx Hl Hs. induction l as [| y l IH]; simpl.
  - constructor; constructor.
  - apply Forall_cons_iff in Hl as [Hy Hl].
    apply StronglySorted_inv in Hs as [Hs Hyl].
    rewrite insert_test by assumption.
    destruct (snd x <? snd y)%float eqn:E.
    + constructor; [apply IH; assumption|].
      rewrite sort_insert_perm. constructor; [|assumption].
      apply Binary64.ltb_leb; auto using high_positive.
    + constructor; [constructor; assumption|].
      assert (Hxy : descending x y)
        by (apply Binary64.ltb_false_leb; auto using high_positive).
      constructor; [assumption|].
      rewrite Forall_forall in Hyl, Hl |- *. intros z Hz.
      apply (Binary64.leb_trans (snd z) (snd y) (snd x));
        auto using high_positive. apply Hyl, Hz.
Qed.

Lemma Array_sorted_sorted (l : list (ModerationCategory * JS.number)) :
  Forall (fun e => is_high e = true) l ->
  StronglySorted descending (JS.Array_sorted by_score_descending l).
Proof.
  induction l as [| x l IH]; intros H; simpl; [constructor|].
  apply Forall_cons_iff in H as [Hx Hl].
  apply sort_insert_sorted; [assumption | | apply IH, Hl].
  rewrite Array_sorted_perm. assumption.
Qed.

(** Entries of equal score never pass one another. *)
Lemma sort_insert_stable (s : JS.number) (x : ModerationCategory * JS.number)
    (l : list (ModerationCategory * JS.number)) :
  is_high x = true -> Forall (fun e => is_high e = true) l ->
  List.filter (has_score s) (JS.sort_insert by_score_descending x l)
  = List.filter (has_score s) (x :: l).
Proof.
  intros Hx Hl. induction l as [| y l IH]; [reflexivity|].
  apply Forall_cons_iff in Hl as [Hy Hl].
  cbn [JS.sort_insert]. rewrite insert_test by assumption.
  destruct (snd x <? snd y)%float eqn:E; [|reflexivity].
  cbn [List.filter]. rewrite (IH Hl). cbn [List.filter].
  destruct (has_score s x) eqn:Ex, (has_score s y) eqn:Ey; try reflexivity.
  unfold has_score in Ex, Ey.
  rewrite (Binary64.eqb_not_ltb (snd x) (snd y) s) in E;
    auto using high_positive. discriminate.
Qed.

Lemma Array_sorted_stable (s : JS.number) (l : list (ModerationCategory * JS.number)) :
  Forall (fun e => is_high e = true) l ->
  List.filter (has_score s) (JS.Array_sorted by_score_descending l)
  = List.filter (has_score s) l.
Proof.
  induction l as [| x l IH]; intros H; [reflexivity|].
  apply Forall_cons_iff in H as [Hx Hl]. cbn [JS.Array_sorted fold_right].
  rewrite sort_insert_stable.
  - cbn [List.filter]. fold (JS.Array_sorted by_score_descending l).
    rewrite (IH Hl). reflexivity.
  - assumption.
  - fold (JS.Array_sorted by_score_descending l). rewrite Array_sorted_perm. assumption.
Qed.

Lemma filter_is_high (l : list (ModerationCategory * JS.number)) :
  Forall (fun e => is_high e = true) (List.filter is_high l).
Proof.
  apply List.Forall_forall. intros e He. apply List.filter_In in He. apply He.
Qed.

Lemma StronglySorted_firstn {A} (R : A -> A -> Prop) (n : nat) (l : list A) :
  StronglySorted R l -> StronglySorted R (firstn n l).
Proof.
  revert n. induction l as [| x l IH]; intros [| n] H; simpl; try constructor.
  - apply IH. apply StronglySorted_inv in H. apply H.
  - apply StronglySorted_inv in H as [_ H]. apply Forall_take, H.
Qed.

End Sorting.

(** ** Programs on the heap *)

Module Heap.

Lemma wp_ret {A} (v : A) (w : world) (Q : A -> world -> Prop) :
  Q v w -> wp (mret v) w Q.
Proof. intros H. exact H. Qed.

Lemma wp_bind {A B} (m : js A) (k : A -> js B) (w : world) (Q : B -> world -> Prop) :
  wp m w (fun v w' => wp (k v) w' Q) -> wp (m ≫= k) w Q.
Proof.
  unfold wp, mbind, js_bind. destruct (m w) as [v w' | e w']; auto.
Qed.

Lemma wp_mono {A} (m : js A) (w : world) (P Q : A -> world -> Prop) :
  (forall v w', P v w' -> Q v w') -> wp m w P -> wp m w Q.
Proof. unfold wp. intros H. destruct (m w); auto. Qed.

Lemma wp_returned {A} (m : js A) (w : world) (Q : A -> world -> Prop) :
  wp m w Q -> exists v w', m w = Returned v w' /\ Q v w'.
Proof. unfold wp. destruct (m w) as [v w' | e w']; [eauto | contradiction]. Qed.

Lemma wp_load {A} `{Storable A} (l : ref A) (a : A) (w : world)
    (Q : A -> world -> Prop) :
  heap w !! addr l = Some (to_cell a) -> Q a w -> wp (load l) w Q.
Proof. intros Hl HQ. unfold wp, load. rewrite Hl, of_to_cell. exact HQ. Qed.

Lemma wp_alloc {A} `{Storable A} (a : A) (w : world) (Q : ref A -> world -> Prop) :
  (forall l, heap w !! l = None ->
             Q (Ref l) (World (<[l := to_cell a]> (heap w)) (console w))) ->
  wp (alloc a) w Q.
Proof.
  intros HQ. unfold wp, alloc. apply HQ.
  apply not_elem_of_dom, is_fresh.
Qed.

Lemma wp_store {A} `{Storable A} (l : ref A) (a : A) (w : world)
    (Q : unit -> world -> Prop) :
  Q tt (World (<[addr l := to_cell a]> (heap w)) (console w)) -> wp (store l a) w Q.
Proof. intros HQ. exact HQ. Qed.

Lemma wp_console_log (t : line) (w : world) (Q : unit -> world -> Prop) :
  Q tt (World (heap w) (console w ++ [t])) -> wp (console_log t) w Q.
Proof. intros HQ. exact HQ. Qed.

Lemma wp_for_each_log {A} (f : A -> js unit) (g : A -> line) (xs : list A) (w : world)
    (Q : unit -> world -> Prop) :
  (forall x w', f x w' = console_log (g x) w') ->
  Q tt (World (heap w) (console w ++ List.map g xs)) -> wp (for_each f xs) w Q.
Proof.
  intros Hf. revert w. induction xs as [| x xs IH]; intros w HQ.
  - simpl in HQ. rewrite app_nil_r in HQ. destruct w. exact HQ.
  - cbn [for_each]. apply wp_bind. unfold wp at 1. rewrite Hf.
    cbn [console_log]. apply IH. cbn [heap console].
    rewrite <- app_assoc. exact HQ.
Qed.

(** [analyzeResult] returns the contents of its two constants, and every
    object that was on the heap before is still there, unchanged. *)
Lemma analyzeResult_wp (result : ref ModerationResult) (inputText : string)
    (r : ModerationResult) (w : world) :
  heap w !! addr result = Some (CModerationResult r) ->
  wp (analyzeResult result inputText) w
     (fun out w' => out = analysis_of r /\ heap w ⊆ heap w').
Proof.
  intros Hr. unfold analyzeResult.
  apply wp_bind, (wp_load result r); [exact Hr|].
  apply wp_bind, wp_console_log. apply wp_bind, wp_console_log.
  unfold analysis_of. destruct (flagged r).
  - apply wp_bind. cbn [heap console].
    (* Object.entries(result.categories) *)
    apply wp_bind. unfold Object_entries. apply wp_alloc. intros l1 H1. cbn [heap] in H1.
    (* .filter *)
    apply wp_bind. unfold Array_filter. apply wp_bind.
    apply (wp_load _ (categories r)); [cbn; apply lookup_insert_eq|].
    apply wp_alloc. intros l2 H2. cbn [heap console] in *.
    (* .map *)
    apply wp_bind. unfold Array_map. apply wp_bind.
    apply (wp_load _ (List.filter (fun '(_, flagged) => flagged) (categories r)));
      [cbn; apply lookup_insert_eq|].
    apply wp_alloc. intros l3 H3. cbn [heap console] in *.
    (* .join *)
    apply wp_bind. unfold Array_join. apply wp_bind.
    eapply wp_load; [cbn; apply lookup_insert_eq|]. apply wp_ret.
    apply wp_bind, wp_console_log. cbn [heap console].
    (* Object.entries(result.category_scores) *)
    apply wp_bind. apply wp_alloc. intros l4 H4. cbn [heap console] in *.
    (* .filter *)
    apply wp_bind. apply wp_bind.
    apply (wp_load _ (category_scores r)); [cbn; apply lookup_insert_eq|].
    apply wp_alloc. intros l5 H5. cbn [heap console] in *.
    (* .sort *)
    apply wp_bind. unfold Array_sort. apply wp_bind.
    eapply wp_load; [cbn; apply lookup_insert_eq|].
    apply wp_bind, wp_store, wp_ret. cbn [heap console addr].
    (* .slice(0, 3) *)
    apply wp_bind. unfold Array_slice0. apply wp_bind.
    eapply wp_load; [cbn; apply lookup_insert_eq|].
    apply wp_alloc. intros l6 H6. cbn [heap console] in *.
    (* highScores.length, forEach *)
    apply wp_bind. unfold Array_length. apply wp_bind.
    eapply wp_load; [cbn; apply lookup_insert_eq|]. apply wp_ret.
    apply lookup_insert_None in H6 as [H6 N65].
    apply lookup_insert_None in H6 as [H6 _].
    apply lookup_insert_None in H6 as [H6 N64].
    apply lookup_insert_None in H6 as [H6 N63].
    apply lookup_insert_None in H6 as [H6 N62].
    apply lookup_insert_None in H6 as [H6 N61].
    apply lookup_insert_None in H5 as [H5 N54].
    apply lookup_insert_None in H5 as [H5 N53].
    apply lookup_insert_None in H5 as [H5 N52].
    apply lookup_insert_None in H5 as [H5 N51].
    apply lookup_insert_None in H4 as [H4 N43].
    apply lookup_insert_None in H4 as [H4 N42].
    apply lookup_insert_None in H4 as [H4 N41].
    apply lookup_insert_None in H3 as [H3 N32].
    apply lookup_insert_None in H3 as [H3 N31].
    apply lookup_insert_None in H2 as [H2 N21].
    assert (Hend : forall w0 : world,
      heap w0 = <[l6:=to_cell (firstn 3 (sorted_high_scores r))]>
                 (<[l5:=to_cell (sorted_high_scores r)]>
                  (<[l5:=to_cell (List.filter is_high (category_scores r))]>
                   (<[l4:=to_cell (category_scores r)]>
                    (<[l3:=to_cell (List.map fst (List.filter is_flagged (categories r)))]>
                     (<[l2:=to_cell (List.filter is_flagged (categories r))]>
                      (<[l1:=to_cell (categories r)]> (heap w))))))) ->
      wp (fc ← load (Ref (A := list ModerationCategory) l3);
          hs ← load (Ref (A := list (ModerationCategory * JS.number)) l6);
          mret (Some (Analysis fc hs))) w0
         (fun v w' => wp (console_log (Text EmptyString);; mret v) w'
            (fun out w'' =>
               out = Some (Analysis (List.map fst (List.filter is_flagged (categories r)))
                                    (firstn 3 (sorted_high_scores r))) /\
               heap w ⊆ heap w''))).
    { intros w0 Hw0. apply wp_bind.
      apply (wp_load _ (List.map fst (List.filter is_flagged (categories r)))).
      { rewrite Hw0. cbn [addr]. rewrite !lookup_insert_ne by congruence.
        apply lookup_insert_eq. }
      apply wp_bind. apply (wp_load _ (firstn 3 (sorted_high_scores r))).
      { rewrite Hw0. cbn [addr]. apply lookup_insert_eq. }
      apply wp_ret. apply wp_bind, wp_console_log, wp_ret. split; [reflexivity|].
      cbn [heap]. rewrite Hw0.
      repeat (apply insert_subseteq_r; [assumption|]). reflexivity. }
    destruct (0 <? length _)%nat.
    + apply wp_bind. apply wp_bind, wp_console_log.
      unfold Array_forEach. apply wp_bind.
      eapply wp_load; [cbn; apply lookup_insert_eq|].
      eapply (wp_for_each_log _
                (fun e => Percent (category_tag (fst e)) (snd e * 100)%float)).
      { intros [c s] w'. reflexivity. }
      apply Hend. reflexivity.
    + apply wp_bind, wp_ret. apply Hend. reflexivity.
  - apply wp_bind, wp_ret. apply wp_bind, wp_console_log, wp_ret.
    split; [reflexivity|]. reflexivity.
Qed.

End Heap.

(** ** The result analyzer *)

Module Analyzer.

Lemma analyzeResult_returns (result : ref ModerationResult) (inputText : string)
    (r : ModerationResult) (w : world) :
  heap w !! addr result = Some (CModerationResult r) ->
  exists w', analyzeResult result inputText w = Returned (analysis_of r) w' /\
             heap w ⊆ heap w'.
Proof.
  intros H.
  destruct (Heap.wp_returned _ _ _ (Heap.analyzeResult_wp result inputText r w H))
    as (v & w' & Hrun & -> & Hsub).
  exists w'. split; assumption.
Qed.

Lemma all_categories_NoDup : List.NoDup all_categories.
Proof.
  unfold all_categories.
  repeat (constructor;
          [simpl; intros H; repeat (destruct H as [H | H]; [discriminate H|]); exact H|]).
  constructor.
Qed.

Lemma property_other {V} (o : keyed V) (k c : ModerationCategory) (v : V) :
  k <> c -> property ((k, v) :: o) c = property o c.
Proof. intros Hne. simpl. destruct (decide (k = c)); [contradiction | reflexivity]. Qed.

(** On an object whose keys are all different, filtering the entries and
    filtering the keys give the same categories. *)
Lemma flagged_by_key (o : keyed bool) :
  List.NoDup (List.map fst o) ->
  List.map fst (List.filter is_flagged o)
  = List.filter (fun c => bool_decide (property o c = Some true)) (List.map fst o).
Proof.
  induction o as [| [k v] o IH]; intros Hnd; [reflexivity|].
  cbn [List.map fst] in Hnd. apply List.NoDup_cons_iff in Hnd as [Hk Hnd].
  cbn [List.filter List.map fst is_flagged].
  assert (Hrest : List.filter (fun c => bool_decide (property ((k, v) :: o) c = Some true))
                    (List.map fst o)
                  = List.filter (fun c => bool_decide (property o c = Some true))
                      (List.map fst o)).
  { apply List.filter_ext_in. intros c Hc.
    rewrite property_other; [reflexivity|]. intros ->. contradiction. }
  rewrite Hrest, <- (IH Hnd).
  cbn [property]. destruct (decide (k = k)) as [_ |]; [|contradiction].
  destruct v; reflexivity.
Qed.

Lemma flagged_canonical (r : ModerationResult) :
  List.map fst (categories r) = all_categories ->
  List.map fst (List.filter is_flagged (categories r)) = flagged_in_canonical_order r.
Proof.
  intros H. unfold flagged_in_canonical_order. rewrite <- H.
  apply flagged_by_key. rewrite H. apply all_categories_NoDup.
Qed.

Lemma none_flagged (o : keyed bool) :
  List.Forall (fun e => snd e = false) o -> List.filter is_flagged o = [].
Proof.
  induction 1 as [| [k v] o Hv _ IH]; [reflexivity|].
  simpl in Hv. subst v. exact IH.
Qed.

Lemma is_high_above (l : list (ModerationCategory * JS.number)) :
  List.filter is_high l = List.filter (fun e => (0.1 <? snd e)%float) l.
Proof. apply List.filter_ext. intros [c s]. reflexivity. Qed.

End Analyzer.

(** ** The leftmost token of a text *)

Module Token.

Lemma tail_no_token (c : ascii) (p : string) :
  has_duration_token (String c p) = false -> has_duration_token p = false.
Proof. cbn [has_duration_token]. intros H. apply orb_false_elim in H. apply H. Qed.

(** Nothing matches at the head of a text that has no token and does not
    end in a digit, whatever follows it. *)
Lemma match_here_before_token (p t : string) :
  p <> EmptyString ->
  has_duration_token p = false -> ends_with_digit p = false ->
  JS.match_here (p ++ t) = None.
Proof.
  induction p as [| c p IH]; intros Hne Htok Hend; [congruence|].
  change (String c p ++ t) with (String c (p ++ t)). cbn [JS.match_here].
  destruct (JS.is_digit c) eqn:Hc; [|reflexivity].
  destruct p as [| c' p'].
  - simpl in Hend. congruence.
  - rewrite IH; [| discriminate | exact (tail_no_token _ _ Htok) | exact Hend].
    change (String c' p' ++ t) with (String c' (p' ++ t)).
    cbn [has_duration_token] in Htok. apply orb_false_elim in Htok as [Htok _].
    rewrite Hc in Htok. simpl in Htok. rewrite Htok. reflexivity.
Qed.

Lemma String_match_leftmost (pre ds : string) (u : ascii) (rest : string) :
  has_duration_token pre = false -> ends_with_digit pre = false ->
  ds <> EmptyString -> all_digits ds = true -> JS.is_unit u = true ->
  exists whole,
    JS.String_match (pre ++ ds ++ String u rest)
    = Some (JS.MatchArray whole ds (String u EmptyString)).
Proof.
  intros Htok Hend Hne Hds Hu. induction pre as [| c pre IH].
  - change (EmptyString ++ ds ++ String u rest) with (ds ++ String u rest).
    destruct ds as [| d ds]; [congruence|].
    change (String d ds ++ String u rest) with (String d (ds ++ String u rest)).
    cbn [JS.String_match].
    change (String d (ds ++ String u rest)) with (String d ds ++ String u rest).
    rewrite Duration.match_here_digits by assumption. eauto.
  - change (String c pre ++ ds ++ String u rest)
      with (String c (pre ++ ds ++ String u rest)).
    cbn [JS.String_match].
    change (String c (pre ++ ds ++ String u rest))
      with (String c pre ++ (ds ++ String u rest)).
    rewrite match_here_before_token by (assumption || discriminate).
    apply IH; [exact (tail_no_token _ _ Htok)|].
    destruct pre; [reflexivity | exact Hend].
Qed.

Lemma milliseconds_leftmost (pre ds : string) (u : ascii) (rest : string) :
  has_duration_token pre = false -> ends_with_digit pre = false ->
  ds <> EmptyString -> all_digits ds = true -> JS.is_unit u = true ->
  milliseconds (pre ++ ds ++ String u rest) = milliseconds (duration_text ds u).
Proof.
  intros Htok Hend Hne Hds Hu.
  destruct (String_match_leftmost pre ds u rest Htok Hend Hne Hds Hu) as [whole E].
  unfold milliseconds. rewrite E, Duration.String_match_duration_text by assumption.
  reflexivity.
Qed.

(** A text with a token splits at its leftmost one: a part without a token
    that does not end in a digit, the digits, the unit, and the rest. *)
Lemma leftmost_token_exists (s : string) :
  has_duration_token s = true ->
  exists before digits unit after,
    s = before ++ digits ++ String unit after /\
    has_duration_token before = false /\ ends_with_digit before = false /\
    digits <> EmptyString /\ all_digits digits = true /\ JS.is_unit unit = true.
Proof.
  induction s as [| c s IH]; [discriminate|].
  intros H. cbn [has_duration_token] in H.
  destruct s as [| c2 s2]; [discriminate H|].
  destruct (JS.is_digit c) eqn:Hc.
  - destruct (JS.is_unit c2) eqn:Hu.
    + exists EmptyString, (String c EmptyString), c2, s2.
      repeat split; try reflexivity; try discriminate; try assumption.
      simpl. rewrite Hc. reflexivity.
    + simpl in H. destruct (IH H) as (b & ds & u & a & E & Hb & He & Hne & Hds & Hu').
      destruct b as [| cb b].
      * exists EmptyString, (String c ds), u, a. simpl in E. rewrite E.
        repeat split; try reflexivity; try discriminate; try assumption.
        simpl. rewrite Hc, Hds. reflexivity.
      * exists (String c (String cb b)), ds, u, a. rewrite E.
        split; [reflexivity|]. split; [|split; [exact He|auto]].
        simpl in E. injection E as <- _.
        change (has_duration_token (String c (String c2 b)))
          with (JS.is_digit c && JS.is_unit c2 || has_duration_token (String c2 b)).
        rewrite Hu, andb_false_r. exact Hb.
  - simpl in H. destruct (IH H) as (b & ds & u & a & E & Hb & He & Hne & Hds & Hu').
    exists (String c b), ds, u, a. rewrite E. split; [reflexivity|].
    split; [|split; [|auto]].
    + destruct b as [| cb b]; [reflexivity|].
      change (has_duration_token (String c (String cb b)))
        with (JS.is_digit c && JS.is_unit cb || has_duration_token (String cb b)).
      rewrite Hc. exact Hb.
    + destruct b as [| cb b]; [simpl; exact Hc | exact He].
Qed.

End Token.

(** ** The advisor on objects with their properties by name *)

Module Objects.

Lemma typed_number_property (o : object) (name : string) (field : option JS.number) :
  typed_number (o !! name) = Some field -> number_property o name = field.
Proof.
  unfold typed_number, number_property.
  destruct (o !! name) as [[] |]; intros [= <-]; reflexivity.
Qed.

Lemma typed_string_property (o : object) (name : string) (field : option string) :
  typed_string (o !! name) = Some field -> string_property o name = field.
Proof.
  unfold typed_string, string_property.
  destruct (o !! name) as [[] |]; intros [= <-]; reflexivity.
Qed.

Lemma as_RateLimitInfo_fields (o : object) (info : RateLimitInfo) :
  as_RateLimitInfo o = Some info ->
  number_property o "limitRequests" = limitRequests info /\
  number_property o "limitTokens" = limitTokens info /\
  number_property o "remainingRequests" = remainingRequests info /\
  number_property o "remainingTokens" = remainingTokens info /\
  string_property o "resetRequests" = resetRequests info /\
  string_property o "resetTokens" = resetTokens info.
Proof.
  unfold as_RateLimitInfo. intros H.
  destruct (typed_number (o !! "limitRequests")) as [lr |] eqn:E1; [|discriminate H].
  destruct (typed_number (o !! "limitTokens")) as [lt |] eqn:E2; [|discriminate H].
  destruct (typed_number (o !! "remainingRequests")) as [rr |] eqn:E3; [|discriminate H].
  destruct (typed_number (o !! "remainingTokens")) as [rt |] eqn:E4; [|discriminate H].
  destruct (typed_string (o !! "resetRequests")) as [sr |] eqn:E5; [|discriminate H].
  destruct (typed_string (o !! "resetTokens")) as [st |] eqn:E6; [|discriminate H].
  injection H as <-. cbn [limitRequests limitTokens remainingRequests remainingTokens
    resetRequests resetTokens].
  repeat split; (apply typed_number_property || apply typed_string_property); assumption.
Qed.

(** Objects that agree on the six names read as the same
    [RateLimitInfo]. *)
Lemma as_RateLimitInfo_agree (o o' : object) :
  (forall name, In name documented_fields -> o' !! name = o !! name) ->
  as_RateLimitInfo o' = as_RateLimitInfo o.
Proof.
  intros H. unfold as_RateLimitInfo.
  rewrite !H by (simpl; tauto). reflexivity.
Qed.

(** One block of the advisor, run. *)
Lemma block_returns (remaining limit : option JS.number) (reset : option string)
    (t waitTime : JS.number) (k : JS.number -> js JS.number) (w : world) :
  (match remaining, limit with
   | Some remaining, Some limit =>
       match reset with
       | Some text =>
           if (remaining / limit <? t)%float && JS.truthy reset
           then t' ← parseTimeToMs text; mret (JS.Math_max waitTime t')
           else mret waitTime
       | None => mret waitTime
       end
   | _, _ => mret waitTime
   end ≫= k) w
  = k (checked_wait remaining limit reset t waitTime) w.
Proof.
  unfold checked_wait.
  destruct remaining as [r |], limit as [l |], reset as [s |]; try reflexivity.
  destruct ((r / l <? t)%float && JS.truthy (Some s)); [|reflexivity].
  unfold mbind, js_bind. rewrite Duration.parseTimeToMs_returns. reflexivity.
Qed.

Lemma shouldWaitForRateLimit_object_returns (rateLimitInfo : ref object)
    (threshold : option JS.number) (o : object) (info : RateLimitInfo) (w : world) :
  heap w !! addr rateLimitInfo = Some (CObject o) ->
  as_RateLimitInfo o = Some info ->
  shouldWaitForRateLimit_object rateLimitInfo threshold w
  = Returned (advised_wait info threshold) w.
Proof.
  intros H Hinfo.
  destruct (as_RateLimitInfo_fields o info Hinfo) as (E1 & E2 & E3 & E4 & E5 & E6).
  unfold shouldWaitForRateLimit_object, advised_wait.
  unfold mbind at 1. unfold js_bind at 1. unfold load.
  rewrite H. cbn [of_cell Storable_object]. cbv zeta.
  rewrite E1, E2, E3, E4, E5, E6.
  rewrite block_returns, block_returns. reflexivity.
Qed.

End Objects.

(** * Properties of the specification *)

(** ** Result analyzer *)

(** C1, as the statement reads: for every result the top scores hold the
    categories that score above 0.1.  It fails on a result that is not
    flagged as a whole: the hate category scores 0.5, and the method hands
    back no list at all. *)
Lemma analyzeResult_topScores_counterexample :
  well_formed_result unflagged_result /\
  In (HATE, 0.5%float) (category_scores unflagged_result) /\
  (0.1 <? 0.5)%float = true /\
  returned (analyzeResult (Ref 1%positive) "text"
              (world_with (CModerationResult unflagged_result))) = Some None.
Proof.
  split; [|split; [|split]].
  - repeat split; apply Permutation_refl.
  - simpl. tauto.
  - reflexivity.
  - vm_compute. reflexivity.
Qed.

(** C1, as the code has it.  When [result.flagged] is true, [highScores]
    is the first three entries of a list that holds exactly the entries of
    [category_scores] with a score strictly above 0.1, sorted by descending
    score, entries of equal score in the order in which the object lists
    them.  When [result.flagged] is false the method computes no list. *)
Theorem analyzeResult_topScores (result : ref ModerationResult) (inputText : string)
    (r : ModerationResult) (w : world) :
  heap w !! addr result = Some (CModerationResult r) ->
  if flagged r then
    exists fc top sorted w',
      analyzeResult result inputText w = Returned (Some (Analysis fc top)) w' /\
      top = firstn 3 sorted /\
      Permutation sorted
        (List.filter (fun e => (0.1 <? snd e)%float) (category_scores r)) /\
      StronglySorted descending sorted /\
      (forall s, List.filter (has_score s) sorted
                 = List.filter (has_score s)
                     (List.filter (fun e => (0.1 <? snd e)%float) (category_scores r))) /\
      (length top <= 3)%nat
  else
    exists w', analyzeResult result inputText w = Returned None w'.
Proof.
  intros H. destruct (Analyzer.analyzeResult_returns result inputText r w H) as (w' & Hrun & _).
  unfold analysis_of in Hrun. destruct (flagged r).
  - eexists _, _, (sorted_high_scores r), w'. split; [exact Hrun|].
    split; [reflexivity|]. rewrite <- Analyzer.is_high_above. unfold sorted_high_scores.
    split; [apply Sorting.Array_sorted_perm|].
    split; [apply Sorting.Array_sorted_sorted, Sorting.filter_is_high|].
    split; [intros s; apply Sorting.Array_sorted_stable, Sorting.filter_is_high|].
    apply firstn_le_length.
  - exists w'. exact Hrun.
Qed.

Lemma analyzeResult_topScores_witness :
  exists fc top sorted w',
    analyzeResult (Ref 1%positive) "text"
      (world_with (CModerationResult result_in_service_order))
    = Returned (Some (Analysis fc top)) w' /\
    top = firstn 3 sorted /\
    Permutation sorted
      (List.filter (fun e => (0.1 <? snd e)%float)
         (category_scores result_in_service_order)) /\
    StronglySorted descending sorted /\
    (forall s, List.filter (has_score s) sorted
               = List.filter (has_score s)
                   (List.filter (fun e => (0.1 <? snd e)%float)
                      (category_scores result_in_service_order))) /\
    (length top <= 3)%nat.
Proof.
  apply (analyzeResult_topScores (Ref 1%positive) "text" result_in_service_order
           (world_with (CModerationResult result_in_service_order))).
  reflexivity.
Defined.

(** C2, as the statement reads: for every result the flagged categories
    are those with a true boolean, in the order of the enumeration.  It
    fails twice.  On a result that is not flagged as a whole the method
    hands back no list, though the hate boolean is true.  On a flagged
    result whose object lists its keys in the service's order, the list
    follows that order: harassment comes before sexual. *)
Lemma analyzeResult_flaggedCategories_counterexample :
  (well_formed_result unflagged_result /\
   flagged_in_canonical_order unflagged_result = [HATE] /\
   returned (analyzeResult (Ref 1%positive) "text"
               (world_with (CModerationResult unflagged_result))) = Some None) /\
  (well_formed_result result_in_service_order /\
   flagged_in_canonical_order result_in_service_order = [SEXUAL; HARASSMENT] /\
   option_map (option_map flaggedCategories)
     (returned (analyzeResult (Ref 1%positive) "text"
                  (world_with (CModerationResult result_in_service_order))))
   = Some (Some [HARASSMENT; SEXUAL])).
Proof.
  split; split.
  - repeat split; apply Permutation_refl.
  - split; [reflexivity | vm_compute; reflexivity].
  - unfold well_formed_result, has_all_keys.
    repeat split; apply (bool_decide_unpack _); vm_compute; exact I.
  - split; [reflexivity | vm_compute; reflexivity].
Qed.

(** C2, as the code has it.  When [result.flagged] is true,
    [flaggedCategories] holds the categories whose boolean is true, in the
    order in which [result.categories] lists its keys; for an object that
    lists them in the order of the enumeration this is the canonical order,
    and when every boolean is false the list is empty.  When
    [result.flagged] is false the method computes no list. *)
Theorem analyzeResult_flaggedCategories (result : ref ModerationResult)
    (inputText : string) (r : ModerationResult) (w : world) :
  heap w !! addr result = Some (CModerationResult r) ->
  if flagged r then
    exists fc top w',
      analyzeResult result inputText w = Returned (Some (Analysis fc top)) w' /\
      fc = List.map fst (List.filter (fun e => snd e) (categories r)) /\
      (List.map fst (categories r) = all_categories ->
       fc = flagged_in_canonical_order r) /\
      (List.Forall (fun e => snd e = false) (categories r) -> fc = [])
  else
    exists w', analyzeResult result inputText w = Returned None w'.
Proof.
  intros H. destruct (Analyzer.analyzeResult_returns result inputText r w H) as (w' & Hrun & _).
  unfold analysis_of in Hrun. destruct (flagged r).
  - eexists _, _, w'. split; [exact Hrun|].
    split; [f_equal; apply List.filter_ext; intros [c b]; reflexivity|].
    split; [apply Analyzer.flagged_canonical|].
    intros Hall. rewrite (Analyzer.none_flagged _ Hall). reflexivity.
  - exists w'. exact Hrun.
Qed.

Lemma analyzeResult_flaggedCategories_witness :
  exists fc top w',
    analyzeResult (Ref 1%positive) "text"
      (world_with (CModerationResult result_in_service_order))
    = Returned (Some (Analysis fc top)) w' /\
    fc = List.map fst (List.filter (fun e => snd e) (categories result_in_service_order)) /\
    (List.map fst (categories result_in_service_order) = all_categories ->
     fc = flagged_in_canonical_order result_in_service_order) /\
    (List.Forall (fun e => snd e = false) (categories result_in_service_order) -> fc = []).
Proof.
  apply (analyzeResult_flaggedCategories (Ref 1%positive) "text" result_in_service_order
           (world_with (CModerationResult result_in_service_order))).
  reflexivity.
Defined.

(** ** Duration parser *)

(** C4, as the statement reads: for every text of the form <digits><unit>
    the result is the value times 60000 for minutes.  It fails on
    "4503599627370499m": the source multiplies by 60 and then by 1000, each
    product rounded to a Number, and ends 32768 above the Number nearest to
    the product with 60000, which is also what one multiplication by 60000
    gives. *)
Lemma parseTimeToMs_minutes_counterexample :
  all_digits "4503599627370499" = true /\
  option_map integer_of (returned (parseTimeToMs "4503599627370499m" empty_world))
  = Some (Some 270215977642229956608) /\
  integer_value "4503599627370499" * multiplier "m" = 270215977642229940000 /\
  integer_of (JS.number_of_Z (integer_value "4503599627370499" * multiplier "m"))
  = Some 270215977642229923840 /\
  integer_of (JS.parseInt "4503599627370499" * 60000)%float
  = Some 270215977642229923840.
Proof. repeat split; vm_compute; reflexivity. Qed.

(** C4, as the code has it.  For every text of the form <digits><unit> the
    parser returns, in the Number arithmetic of the source, value * 1000
    for s, value * 60 * 1000 for m and value * 60 * 60 * 1000 for h, where
    value is [parseInt] of the digits; whenever the integer value times
    1000, 60000 or 3600000 is below 2^53 this is exactly that integer.  In
    particular "30s" gives 30000, "2m" gives 120000 and "1h" gives
    3600000. *)
Theorem parseTimeToMs_digits_unit (digits : string) (unit : ascii) (w : world) :
  digits <> EmptyString -> all_digits digits = true -> JS.is_unit unit = true ->
  (parseTimeToMs (duration_text digits unit) w =
     Returned (let value := JS.parseInt digits in
               if Ascii.eqb unit "s" then (value * 1000)%float
               else if Ascii.eqb unit "m" then (value * 60 * 1000)%float
               else (value * 60 * 60 * 1000)%float) w) /\
  (integer_value digits * multiplier unit < 2 ^ 53 ->
   parseTimeToMs (duration_text digits unit) w =
     Returned (JS.number_of_Z (integer_value digits * multiplier unit)) w /\
   integer_of (JS.number_of_Z (integer_value digits * multiplier unit))
   = Some (integer_value digits * multiplier unit)) /\
  parseTimeToMs "30s" w = Returned 30000%float w /\
  parseTimeToMs "2m" w = Returned 120000%float w /\
  parseTimeToMs "1h" w = Returned 3600000%float w.
Proof.
  intros Hne Hds Hu. rewrite !Duration.parseTimeToMs_returns.
  split; [|split].
  - rewrite Duration.milliseconds_duration_text by assumption. reflexivity.
  - intros Hlt. rewrite Duration.milliseconds_exact by assumption.
    split; [reflexivity|]. apply Binary64.integer_of_number_of_Z.
    split; [|assumption].
    pose proof (Duration.digits_value_nonneg digits 0 (Z.le_refl 0)) as Hv.
    fold (integer_value digits) in Hv.
    destruct (Duration.unit_cases unit Hu) as [-> | [-> | ->]]; simpl; lia.
  - repeat split.
Qed.

Lemma parseTimeToMs_digits_unit_witness :
  parseTimeToMs (duration_text "45" "m") empty_world
  = Returned (JS.number_of_Z 2700000) empty_world /\
  integer_of (JS.number_of_Z 2700000) = Some 2700000.
Proof.
  refine (proj1 (proj2 (parseTimeToMs_digits_unit "45" "m" empty_world _ _ _)) _).
  - discriminate.
  - reflexivity.
  - reflexivity.
  - vm_compute. reflexivity.
Defined.

(** C5, as the statement reads: every text that is not of the form
    <digits><unit> gives 0.  It fails on "1.5h": the pattern is searched
    anywhere in the text, finds "5h" and the result is five hours. *)
Lemma parseTimeToMs_malformed_counterexample :
  (forall digits unit, all_digits digits = true -> "1.5h" <> duration_text digits unit) /\
  returned (parseTimeToMs "1.5h" empty_world) = Some 18000000%float.
Proof.
  split; [|reflexivity].
  intros ds u Hds E. unfold duration_text in E.
  destruct ds as [| c1 [| c2 [| c3 [| c4 ds]]]]; simpl in E; try discriminate E.
  - injection E as <- <- <- _. discriminate Hds.
  - injection E as _ _ _ _ E. destruct ds; discriminate E.
Qed.

(** C5, as the code has it.  For every text in which no digit is directly
    followed by one of s, m, h, the parser returns 0 and does not throw;
    in particular for the empty text, "abc" and "5x".  A text that does
    hold such a token is parsed from its leftmost one: it splits into a
    part without a token that does not end in a digit, then the digits and
    the unit, then the rest, and for every such split the result is that
    of the digits and the unit alone. *)
Theorem parseTimeToMs_no_token (timeStr : string) (w : world) :
  (has_duration_token timeStr = false ->
   parseTimeToMs timeStr w = Returned 0%float w) /\
  parseTimeToMs EmptyString w = Returned 0%float w /\
  parseTimeToMs "abc" w = Returned 0%float w /\
  parseTimeToMs "5x" w = Returned 0%float w /\
  (has_duration_token timeStr = true ->
   exists before digits unit after,
     timeStr = before ++ digits ++ String unit after /\
     has_duration_token before = false /\ ends_with_digit before = false /\
     digits <> EmptyString /\ all_digits digits = true /\ JS.is_unit unit = true) /\
  (forall before digits unit after,
     timeStr = before ++ digits ++ String unit after ->
     has_duration_token before = false -> ends_with_digit before = false ->
     digits <> EmptyString -> all_digits digits = true -> JS.is_unit unit = true ->
     parseTimeToMs timeStr w = parseTimeToMs (duration_text digits unit) w).
Proof.
  rewrite !Duration.parseTimeToMs_returns. split; [|repeat split].
  - intros H. unfold milliseconds.
    rewrite (Duration.String_match_no_token timeStr H). reflexivity.
  - apply Token.leftmost_token_exists.
  - intros before digits unit after -> Hb He Hne Hds Hu.
    rewrite !Duration.parseTimeToMs_returns. f_equal.
    apply Token.milliseconds_leftmost; assumption.
Qed.

Lemma parseTimeToMs_no_token_witness :
  parseTimeToMs "5 seconds" empty_world = Returned 0%float empty_world /\
  parseTimeToMs "1.5h" empty_world = parseTimeToMs (duration_text "5" "h") empty_world.
Proof.
  pose proof (parseTimeToMs_no_token "5 seconds" empty_world) as (Hnone & _).
  pose proof (parseTimeToMs_no_token "1.5h" empty_world) as (_ & _ & _ & _ & _ & Hleft).
  split.
  - apply Hnone. reflexivity.
  - apply (Hleft "1." "5" "h"%char EmptyString); try reflexivity. discriminate.
Defined.




(** ** Rate-limit advisor *)

(** C3.  For a dimension whose remaining and limit counts are present,
    whose ratio is strictly below the threshold and whose reset text is
    present, the candidate wait is the parser's value of that text; the
    advisor returns the maximum of the candidate waits, and 0 when there is
    none. *)
Theorem shouldWaitForRateLimit_maximum (rateLimitInfo : ref RateLimitInfo)
    (threshold : option JS.number) (info : RateLimitInfo) (w : world) :
  heap w !! addr rateLimitInfo = Some (CRateLimitInfo info) ->
  let t := default default_threshold threshold in
  shouldWaitForRateLimit rateLimitInfo threshold w =
    Returned
      (maximum_candidate
         (candidate_wait (remainingRequests info) (limitRequests info)
            (resetRequests info) t)
         (candidate_wait (remainingTokens info) (limitTokens info)
            (resetTokens info) t))
      w.
Proof.
  intros H t. rewrite (Advisor.shouldWaitForRateLimit_returns _ _ info w H).
  f_equal. apply Advisor.advised_wait_maximum.
Qed.

Lemma shouldWaitForRateLimit_maximum_witness :
  shouldWaitForRateLimit (Ref 1%positive) None (world_with (CRateLimitInfo example_info))
  = Returned 3600000%float (world_with (CRateLimitInfo example_info)).
Proof.
  refine (eq_trans
            (shouldWaitForRateLimit_maximum (Ref 1%positive) None example_info
               (world_with (CRateLimitInfo example_info)) _) _).
  - reflexivity.
  - vm_compute. reflexivity.
Defined.

(** C8.  The advisor leaves the heap and the console as they were, its
    argument included, and its result is determined by the six fields of
    the rate-limit object and by the threshold: in any world and behind any
    reference, an equal object gives an equal result.  It reads no other
    property: run on an object with its properties by name, it returns the
    same value for every object whose six documented properties hold what
    the fields hold, whatever else the object holds; and when an object
    fits the interface, every object that agrees with it on the six names
    gets the same value.  These runs too leave their world as it was. *)
Theorem shouldWaitForRateLimit_pure (rateLimitInfo : ref RateLimitInfo)
    (threshold : option JS.number) (info : RateLimitInfo) (w : world) :
  heap w !! addr rateLimitInfo = Some (CRateLimitInfo info) ->
  exists v,
    shouldWaitForRateLimit rateLimitInfo threshold w = Returned v w /\
    (forall rateLimitInfo' info' w',
       heap w' !! addr rateLimitInfo' = Some (CRateLimitInfo info') ->
       limitRequests info' = limitRequests info ->
       remainingRequests info' = remainingRequests info ->
       resetRequests info' = resetRequests info ->
       limitTokens info' = limitTokens info ->
       remainingTokens info' = remainingTokens info ->
       resetTokens info' = resetTokens info ->
       shouldWaitForRateLimit rateLimitInfo' threshold w' = Returned v w') /\
    (forall (rateLimitInfo' : ref object) (o : object) (w' : world),
       heap w' !! addr rateLimitInfo' = Some (CObject o) ->
       as_RateLimitInfo o = Some info ->
       shouldWaitForRateLimit_object rateLimitInfo' threshold w' = Returned v w') /\
    (forall (first second : ref object) (o o' : object) (w1 w2 : world),
       heap w1 !! addr first = Some (CObject o) ->
       heap w2 !! addr second = Some (CObject o') ->
       is_Some (as_RateLimitInfo o) ->
       (forall name, In name documented_fields -> o' !! name = o !! name) ->
       exists v',
         shouldWaitForRateLimit_object first threshold w1 = Returned v' w1 /\
         shouldWaitForRateLimit_object second threshold w2 = Returned v' w2).
Proof.
  intros H. exists (advised_wait info threshold).
  split; [apply Advisor.shouldWaitForRateLimit_returns, H|]. split; [|split].
  - intros l' info' w' H' E1 E2 E3 E4 E5 E6.
    rewrite (Advisor.shouldWaitForRateLimit_returns _ _ info' w' H').
    unfold advised_wait. rewrite E1, E2, E3, E4, E5, E6. reflexivity.
  - intros l' o w' H' Ho. apply (Objects.shouldWaitForRateLimit_object_returns _ _ o); assumption.
  - intros l1 l2 o o' w1 w2 H1 H2 [info0 Ho] Hagree.
    exists (advised_wait info0 threshold). split.
    + apply (Objects.shouldWaitForRateLimit_object_returns _ _ o); assumption.
    + apply (Objects.shouldWaitForRateLimit_object_returns _ _ o'); [assumption|].
      rewrite (Objects.as_RateLimitInfo_agree o o' Hagree). exact Ho.
Qed.

Lemma shouldWaitForRateLimit_pure_witness :
  exists v,
    shouldWaitForRateLimit (Ref 1%positive) (Some 0.5%float)
      (world_with (CRateLimitInfo exhausted_info))
    = Returned v (world_with (CRateLimitInfo exhausted_info)) /\
    shouldWaitForRateLimit_object (Ref 1%positive) (Some 0.5%float)
      (world_with (CObject exhausted_object))
    = Returned v (world_with (CObject exhausted_object)) /\
    shouldWaitForRateLimit_object (Ref 1%positive) (Some 0.5%float)
      (world_with (CObject (delete "retryAfter" exhausted_object)))
    = Returned v (world_with (CObject (delete "retryAfter" exhausted_object))).
Proof.
  destruct (shouldWaitForRateLimit_pure (Ref 1%positive) (Some 0.5%float) exhausted_info
              (world_with (CRateLimitInfo exhausted_info)) eq_refl)
    as (v & Hrun & _ & Hobject & _).
  exists v. split; [exact Hrun|]. split.
  - apply (Hobject (Ref 1%positive) exhausted_object); reflexivity.
  - apply (Hobject (Ref 1%positive) (delete "retryAfter" exhausted_object)); reflexivity.
Defined.




(** ** The kernel as a whole *)

(** C6.  None of the three functions throws on an argument of its type:
    the parser on any text, the advisor on a reference to any rate-limit
    object with any threshold, the analyzer on a reference to any
    moderation result; each returns a value. *)
Theorem kernel_never_throws (w : world) :
  (forall timeStr, exists v w', parseTimeToMs timeStr w = Returned v w') /\
  (forall rateLimitInfo threshold info,
     heap w !! addr rateLimitInfo = Some (CRateLimitInfo info) ->
     exists v w', shouldWaitForRateLimit rateLimitInfo threshold w = Returned v w') /\
  (forall result inputText r,
     heap w !! addr result = Some (CModerationResult r) ->
     exists v w', analyzeResult result inputText w = Returned v w').
Proof.
  split; [|split].
  - intros s. eexists _, _. apply Duration.parseTimeToMs_returns.
  - intros l t info H. eexists _, _. apply Advisor.shouldWaitForRateLimit_returns, H.
  - intros l txt r H.
    destruct (Analyzer.analyzeResult_returns l txt r w H) as (w' & Hrun & _). eauto.
Qed.

Lemma kernel_never_throws_witness :
  (exists v w', shouldWaitForRateLimit (Ref 1%positive) None
                  (world_with (CRateLimitInfo overdrawn_info)) = Returned v w') /\
  (exists v w', analyzeResult (Ref 1%positive) "text"
                  (world_with (CModerationResult unflagged_result)) = Returned v w').
Proof.
  split.
  - refine (proj1 (proj2 (kernel_never_throws (world_with (CRateLimitInfo overdrawn_info))))
              (Ref 1%positive) None overdrawn_info _). reflexivity.
  - refine (proj2 (proj2 (kernel_never_throws
                            (world_with (CModerationResult unflagged_result))))
              (Ref 1%positive) "text" unflagged_result _). reflexivity.
Defined.

(** C7.  Calling the analyzer twice on the same result gives the same
    output, and after each call the result object, like every other object
    that was on the heap, is what it was; the output is the same in every
    world in which the argument refers to an equal result. *)
Theorem analyzeResult_twice (result : ref ModerationResult) (inputText : string)
    (r : ModerationResult) (w : world) :
  heap w !! addr result = Some (CModerationResult r) ->
  exists out w1 w2,
    analyzeResult result inputText w = Returned out w1 /\
    analyzeResult result inputText w1 = Returned out w2 /\
    heap w1 !! addr result = Some (CModerationResult r) /\
    heap w2 !! addr result = Some (CModerationResult r) /\
    (forall l c, heap w !! l = Some c -> heap w1 !! l = Some c /\ heap w2 !! l = Some c) /\
    (forall result' inputText' w',
       heap w' !! addr result' = Some (CModerationResult r) ->
       returned (analyzeResult result' inputText' w') = Some out).
Proof.
  intros H.
  destruct (Analyzer.analyzeResult_returns result inputText r w H) as (w1 & Hrun1 & Hsub1).
  pose proof (lookup_weaken _ _ _ _ H Hsub1) as H1.
  destruct (Analyzer.analyzeResult_returns result inputText r w1 H1) as (w2 & Hrun2 & Hsub2).
  exists (analysis_of r), w1, w2.
  repeat split; try assumption.
  - exact (lookup_weaken _ _ _ _ H1 Hsub2).
  - eapply lookup_weaken; eassumption.
  - eapply lookup_weaken; [eapply lookup_weaken; eassumption | assumption].
  - intros l' txt' w' H'.
    destruct (Analyzer.analyzeResult_returns l' txt' r w' H') as (w'' & Hrun & _).
    rewrite Hrun. reflexivity.
Qed.

Lemma analyzeResult_twice_witness :
  exists out w1 w2,
    analyzeResult (Ref 1%positive) "text"
      (world_with (CModerationResult result_in_service_order)) = Returned out w1 /\
    analyzeResult (Ref 1%positive) "text" w1 = Returned out w2 /\
    heap w1 !! 1%positive = Some (CModerationResult result_in_service_order) /\
    heap w2 !! 1%positive = Some (CModerationResult result_in_service_order) /\
    (forall l c,
       heap (world_with (CModerationResult result_in_service_order)) !! l = Some c ->
       heap w1 !! l = Some c /\ heap w2 !! l = Some c) /\
    (forall result' inputText' w',
       heap w' !! addr result' = Some (CModerationResult result_in_service_order) ->
       returned (analyzeResult result' inputText' w') = Some out).
Proof.
  apply (analyzeResult_twice (Ref 1%positive) "text" result_in_service_order
           (world_with (CModerationResult result_in_service_order))).
  reflexivity.
Defined.

(** * Further properties of the program *)

(** ** Duration parser: the leftmost token *)

(** X1.  The parser reads the leftmost token and nothing else: in a text
    made of a part without a token that does not end in a digit, then
    digits and a unit letter, then anything, the result is that of the
    digits and the unit alone.  What follows the token is dropped, so a
    compound duration keeps its first part only, and digits followed by
    "ms" are read as minutes. *)
Theorem parseTimeToMs_leftmost_token (before digits : string) (unit : ascii)
    (after : string) (w : world) :
  has_duration_token before = false -> ends_with_digit before = false ->
  digits <> EmptyString -> all_digits digits = true -> JS.is_unit unit = true ->
  parseTimeToMs (before ++ digits ++ String unit after) w
  = parseTimeToMs (duration_text digits unit) w /\
  parseTimeToMs (digits ++ "ms") w = parseTimeToMs (duration_text digits "m") w.
Proof.
  intros Htok Hend Hne Hds Hu. rewrite !Duration.parseTimeToMs_returns. split; f_equal.
  - apply Token.milliseconds_leftmost; assumption.
  - apply (Token.milliseconds_leftmost EmptyString digits "m" "s"); auto.
Qed.

Lemma parseTimeToMs_leftmost_token_witness :
  parseTimeToMs ("wait " ++ "1" ++ String "h" "30m") empty_world
  = parseTimeToMs (duration_text "1" "h") empty_world /\
  parseTimeToMs ("1" ++ "ms") empty_world
  = parseTimeToMs (duration_text "1" "m") empty_world.
Proof.
  apply (parseTimeToMs_leftmost_token "wait " "1" "h" "30m" empty_world).
  - reflexivity.
  - reflexivity.
  - discriminate.
  - reflexivity.
  - reflexivity.
Defined.

(** ** Rate-limit advisor: range, edges, symmetry *)

Module Edges.

Lemma is_nan_Prim2SF (x : JS.number) :
  PrimFloat.is_nan x = true -> Prim2SF x = S754_nan.
Proof.
  unfold PrimFloat.is_nan. rewrite FloatAxioms.eqb_spec.
  destruct (Prim2SF x) as [[] | [] | | [] m e]; simpl; try discriminate; try reflexivity;
    unfold SFeqb, SFcompare; rewrite Z.compare_refl;
    change (Pos.compare_cont Eq m m) with (Pos.compare m m);
    rewrite Pos.compare_refl; discriminate.
Qed.

Lemma ltb_nan_r (x t : JS.number) : PrimFloat.is_nan t = true -> (x <? t)%float = false.
Proof.
  intros H. rewrite FloatAxioms.ltb_spec, (is_nan_Prim2SF t H).
  destruct (Prim2SF x) as [[] | [] | | [] m e]; reflexivity.
Qed.

Lemma ltb_nan_l (x t : JS.number) : PrimFloat.is_nan x = true -> (x <? t)%float = false.
Proof.
  intros H. rewrite FloatAxioms.ltb_spec, (is_nan_Prim2SF x H). reflexivity.
Qed.

Lemma div_nan_l (x y : JS.number) :
  PrimFloat.is_nan x = true -> PrimFloat.is_nan (x / y) = true.
Proof.
  intros H. unfold PrimFloat.is_nan at 1. rewrite FloatAxioms.eqb_spec, div_spec.
  rewrite (is_nan_Prim2SF x H). reflexivity.
Qed.

Lemma div_nan_r (x y : JS.number) :
  PrimFloat.is_nan y = true -> PrimFloat.is_nan (x / y) = true.
Proof.
  intros H. unfold PrimFloat.is_nan at 1. rewrite FloatAxioms.eqb_spec, div_spec.
  rewrite (is_nan_Prim2SF y H).
  destruct (Prim2SF x) as [[] | [] | | [] m e]; reflexivity.
Qed.

Lemma equal_not_below (x t : JS.number) : (x =? t)%float = true -> (x <? t)%float = false.
Proof.
  rewrite FloatAxioms.eqb_spec, FloatAxioms.ltb_spec. unfold SFeqb, SFltb.
  destruct (SFcompare (Prim2SF x) (Prim2SF t)) as [[] |]; congruence.
Qed.

Lemma edge_not_below (remaining limit threshold : JS.number) :
  at_the_edge remaining limit threshold ->
  (remaining / limit <? threshold)%float = false.
Proof.
  intros [H | [H | [H | H]]].
  - apply equal_not_below, H.
  - apply ltb_nan_l, div_nan_l, H.
  - apply ltb_nan_l, div_nan_r, H.
  - apply ltb_nan_r, H.
Qed.

Lemma candidate_wait_edge (remaining limit : JS.number) (reset : option string)
    (threshold : JS.number) :
  at_the_edge remaining limit threshold ->
  candidate_wait (Some remaining) (Some limit) reset threshold = None.
Proof.
  intros H. unfold candidate_wait. destruct reset; [|reflexivity].
  rewrite (edge_not_below _ _ _ H). reflexivity.
Qed.

Lemma candidate_wait_nan_threshold (remaining limit : option JS.number)
    (reset : option string) (threshold : JS.number) :
  PrimFloat.is_nan threshold = true ->
  candidate_wait remaining limit reset threshold = None.
Proof.
  intros H. unfold candidate_wait.
  destruct remaining, limit, reset; try reflexivity.
  rewrite (ltb_nan_r _ _ H). reflexivity.
Qed.

(** Of two numbers that are not negative, the larger does not depend on
    the order in which they are given. *)
Lemma larger_comm (a b : JS.number) : nonneg a -> nonneg b -> larger a b = larger b a.
Proof.
  unfold larger, nonneg. rewrite !FloatAxioms.ltb_spec. intros Ha Hb.
  destruct (SFltb (Prim2SF a) (Prim2SF b)) eqn:Eab, (SFltb (Prim2SF b) (Prim2SF a)) eqn:Eba;
    try reflexivity.
  - exfalso. revert Eab Eba. unfold SFltb, SFcompare.
    destruct (Prim2SF a) as [[] | [] | | [] ma ea]; try contradiction;
    destruct (Prim2SF b) as [[] | [] | | [] mb eb]; try contradiction;
      try discriminate.
    change (Pos.compare_cont Eq ma mb) with (Pos.compare ma mb).
    change (Pos.compare_cont Eq mb ma) with (Pos.compare mb ma).
    destruct (Z.compare_spec ea eb); destruct (Z.compare_spec eb ea); try lia;
      try discriminate.
    destruct (Pos.compare_spec ma mb); destruct (Pos.compare_spec mb ma); try lia;
      discriminate.
  - apply Prim2SF_inj. revert Eab Eba. unfold SFltb, SFcompare.
    destruct (Prim2SF a) as [[] | [] | | [] ma ea]; try contradiction;
    destruct (Prim2SF b) as [[] | [] | | [] mb eb]; try contradiction;
      try discriminate; try reflexivity.
    change (Pos.compare_cont Eq ma mb) with (Pos.compare ma mb).
    change (Pos.compare_cont Eq mb ma) with (Pos.compare mb ma).
    destruct (Z.compare_spec ea eb); destruct (Z.compare_spec eb ea); try lia;
      try discriminate.
    destruct (Pos.compare_spec ma mb); destruct (Pos.compare_spec mb ma); try lia;
      try discriminate.
    intros _ _. subst. reflexivity.
Qed.

Lemma maximum_candidate_comm (c1 c2 : option JS.number) :
  (forall a, c1 = Some a -> nonneg a) -> (forall b, c2 = Some b -> nonneg b) ->
  maximum_candidate c1 c2 = maximum_candidate c2 c1.
Proof.
  intros H1 H2. destruct c1 as [a |], c2 as [b |]; try reflexivity.
  simpl. apply larger_comm; auto.
Qed.

End Edges.

(** X2.  The advised wait is never invented: it is 0, or the parser's value
    of a reset text that the object holds and that is not empty.  When
    neither reset text is there, the advisor returns 0 whatever the counts
    and the threshold. *)
Theorem shouldWaitForRateLimit_range (rateLimitInfo : ref RateLimitInfo)
    (threshold : option JS.number) (info : RateLimitInfo) (w : world) :
  heap w !! addr rateLimitInfo = Some (CRateLimitInfo info) ->
  exists v,
    shouldWaitForRateLimit rateLimitInfo threshold w = Returned v w /\
    (v = 0%float \/
     (exists text, resetRequests info = Some text /\ text <> EmptyString /\
                   parseTimeToMs text w = Returned v w) \/
     (exists text, resetTokens info = Some text /\ text <> EmptyString /\
                   parseTimeToMs text w = Returned v w)) /\
    (JS.truthy (resetRequests info) = false -> JS.truthy (resetTokens info) = false ->
     v = 0%float).
Proof.
  intros H. exists (advised_wait info threshold).
  split; [apply Advisor.shouldWaitForRateLimit_returns, H|].
  unfold advised_wait, checked_wait. cbv zeta.
  set (t := default default_threshold threshold).
  destruct info as [lr lt rr rt sr st]. cbn [remainingRequests limitRequests resetRequests
    remainingTokens limitTokens resetTokens].
  assert (Hreq : forall text, sr = Some text -> JS.truthy sr = true ->
            exists text', Some text = Some text' /\ text' <> EmptyString /\
              parseTimeToMs text' w = Returned (milliseconds text) w).
  { intros text -> Ht. exists text. split; [reflexivity|]. split.
    - intros ->. discriminate Ht.
    - apply Duration.parseTimeToMs_returns. }
  assert (Htok : forall text, st = Some text -> JS.truthy st = true ->
            exists text', Some text = Some text' /\ text' <> EmptyString /\
              parseTimeToMs text' w = Returned (milliseconds text) w).
  { intros text -> Ht. exists text. split; [reflexivity|]. split.
    - intros ->. discriminate Ht.
    - apply Duration.parseTimeToMs_returns. }
  set (w1 := match rr, lr, sr with
             | Some remaining, Some limit, Some resetText =>
                 if (remaining / limit <? t)%float && JS.truthy sr
                 then JS.Math_max 0 (milliseconds resetText) else 0%float
             | _, _, _ => 0%float
             end).
  assert (H1 : (w1 = 0%float \/
                exists text, sr = Some text /\ JS.truthy sr = true /\ w1 = milliseconds text) /\
               nonneg w1).
  { unfold w1. destruct rr as [r |], lr as [l |], sr as [s |];
      try (split; [left; reflexivity | exact I]).
    destruct ((r / l <? t)%float && JS.truthy (Some s)) eqn:E;
      [| split; [left; reflexivity | exact I]].
    apply andb_prop in E as [_ E].
    rewrite Binary64.Math_max_zero_l by apply Duration.milliseconds_nonneg.
    split; [right; eauto | apply Duration.milliseconds_nonneg]. }
  destruct H1 as [H1 Hn1].
  assert (H2 : forall v,
            v = match rt, lt, st with
                | Some remaining, Some limit, Some resetText =>
                    if (remaining / limit <? t)%float && JS.truthy st
                    then JS.Math_max w1 (milliseconds resetText) else w1
                | _, _, _ => w1
                end ->
            v = w1 \/ exists text, st = Some text /\ JS.truthy st = true /\ v = milliseconds text).
  { intros v ->. destruct rt as [r |], lt as [l |], st as [s |]; auto.
    destruct ((r / l <? t)%float && JS.truthy (Some s)) eqn:E; auto.
    apply andb_prop in E as [_ E].
    rewrite Advisor.Math_max_larger by (assumption || apply Duration.milliseconds_nonneg).
    unfold larger. destruct (w1 <? milliseconds s)%float; eauto. }
  specialize (H2 _ eq_refl). split.
  - destruct H2 as [-> | (text & Hst & Ht & ->)].
    + destruct H1 as [-> | (text & Hsr & Ht & ->)]; [left; reflexivity|].
      right; left. destruct (Hreq text Hsr Ht) as (text' & [= <-] & Hne & Hrun). eauto.
    + right; right. destruct (Htok text Hst Ht) as (text' & [= <-] & Hne & Hrun). eauto.
  - intros Fr Ft. destruct H2 as [-> | (text & _ & Ht & _)]; [|congruence].
    destruct H1 as [-> | (text & _ & Ht & _)]; [reflexivity | congruence].
Qed.

Lemma shouldWaitForRateLimit_range_witness :
  exists v,
    shouldWaitForRateLimit (Ref 1%positive) None (world_with (CRateLimitInfo example_info))
    = Returned v (world_with (CRateLimitInfo example_info)) /\
    (v = 0%float \/
     (exists text, resetRequests example_info = Some text /\ text <> EmptyString /\
                   parseTimeToMs text (world_with (CRateLimitInfo example_info))
                   = Returned v (world_with (CRateLimitInfo example_info))) \/
     (exists text, resetTokens example_info = Some text /\ text <> EmptyString /\
                   parseTimeToMs text (world_with (CRateLimitInfo example_info))
                   = Returned v (world_with (CRateLimitInfo example_info)))) /\
    (JS.truthy (resetRequests example_info) = false ->
     JS.truthy (resetTokens example_info) = false -> v = 0%float).
Proof.
  apply (shouldWaitForRateLimit_range (Ref 1%positive) None example_info
           (world_with (CRateLimitInfo example_info))).
  reflexivity.
Defined.

(** X3.  The comparison with the threshold is strict and false on NaN: a
    dimension whose ratio equals the threshold, or whose remaining count,
    limit or threshold is NaN, adds no wait, and the result is what the
    other dimension alone gives; with a NaN threshold the advisor returns
    0. *)
Theorem shouldWaitForRateLimit_edges (rateLimitInfo : ref RateLimitInfo)
    (threshold : option JS.number) (info : RateLimitInfo) (w : world) :
  heap w !! addr rateLimitInfo = Some (CRateLimitInfo info) ->
  let t := default default_threshold threshold in
  (forall remaining limit,
     remainingRequests info = Some remaining -> limitRequests info = Some limit ->
     at_the_edge remaining limit t ->
     shouldWaitForRateLimit rateLimitInfo threshold w =
       Returned
         (maximum_candidate None
            (candidate_wait (remainingTokens info) (limitTokens info) (resetTokens info) t))
         w) /\
  (forall remaining limit,
     remainingTokens info = Some remaining -> limitTokens info = Some limit ->
     at_the_edge remaining limit t ->
     shouldWaitForRateLimit rateLimitInfo threshold w =
       Returned
         (maximum_candidate
            (candidate_wait (remainingRequests info) (limitRequests info)
               (resetRequests info) t)
            None)
         w) /\
  (PrimFloat.is_nan t = true ->
   shouldWaitForRateLimit rateLimitInfo threshold w = Returned 0%float w).
Proof.
  intros H t. rewrite (Advisor.shouldWaitForRateLimit_returns _ _ info w H).
  rewrite Advisor.advised_wait_maximum. fold t. cbv zeta.
  split; [|split].
  - intros r l Hr Hl He. rewrite Hr, Hl, (Edges.candidate_wait_edge r l _ t He).
    reflexivity.
  - intros r l Hr Hl He. rewrite Hr, Hl, (Edges.candidate_wait_edge r l _ t He).
    reflexivity.
  - intros Hn. rewrite !(Edges.candidate_wait_nan_threshold _ _ _ t Hn). reflexivity.
Qed.

Lemma shouldWaitForRateLimit_edges_witness :
  shouldWaitForRateLimit (Ref 1%positive) (Some 0.05%float)
    (world_with (CRateLimitInfo example_info))
  = Returned
      (maximum_candidate None
         (candidate_wait (remainingTokens example_info) (limitTokens example_info)
            (resetTokens example_info) 0.05%float))
      (world_with (CRateLimitInfo example_info)).
Proof.
  refine (proj1 (shouldWaitForRateLimit_edges (Ref 1%positive) (Some 0.05%float)
                   example_info (world_with (CRateLimitInfo example_info)) _)
            5%float 100%float _ _ _).
  - reflexivity.
  - reflexivity.
  - reflexivity.
  - left. reflexivity.
Defined.

(** X4.  The two dimensions are treated alike: exchanging the request
    fields and the token fields of the object does not change the advised
    wait. *)
Theorem shouldWaitForRateLimit_symmetric (rateLimitInfo swapped : ref RateLimitInfo)
    (threshold : option JS.number) (info : RateLimitInfo) (w w' : world) :
  heap w !! addr rateLimitInfo = Some (CRateLimitInfo info) ->
  heap w' !! addr swapped = Some (CRateLimitInfo (swap_dimensions info)) ->
  exists v,
    shouldWaitForRateLimit rateLimitInfo threshold w = Returned v w /\
    shouldWaitForRateLimit swapped threshold w' = Returned v w'.
Proof.
  intros H H'. exists (advised_wait info threshold).
  split; [apply Advisor.shouldWaitForRateLimit_returns, H|].
  rewrite (Advisor.shouldWaitForRateLimit_returns _ _ _ w' H').
  f_equal. rewrite !Advisor.advised_wait_maximum. cbv zeta.
  cbn [swap_dimensions remainingRequests limitRequests resetRequests
       remainingTokens limitTokens resetTokens].
  apply Edges.maximum_candidate_comm; intros c Hc;
    exact (Advisor.candidate_wait_nonneg _ _ _ _ _ Hc).
Qed.

Lemma shouldWaitForRateLimit_symmetric_witness :
  exists v,
    shouldWaitForRateLimit (Ref 1%positive) None (world_with (CRateLimitInfo example_info))
    = Returned v (world_with (CRateLimitInfo example_info)) /\
    shouldWaitForRateLimit (Ref 1%positive) None
      (world_with (CRateLimitInfo (swap_dimensions example_info)))
    = Returned v (world_with (CRateLimitInfo (swap_dimensions example_info))).
Proof.
  apply (shouldWaitForRateLimit_symmetric (Ref 1%positive) (Ref 1%positive) None
           example_info); reflexivity.
Defined.

(** ** Result analyzer: what is kept, what is printed *)

Module Report.

Local Open Scope list_scope.

Lemma sorted_split {A} (R : A -> A -> Prop) (n : nat) (l : list A) :
  StronglySorted R l ->
  forall x y, In x (firstn n l) -> In y (skipn n l) -> R x y.
Proof.
  revert n. induction l as [| a l IH]; intros [| n] Hs x y Hx Hy; simpl in *;
    try contradiction.
  apply StronglySorted_inv in Hs as [Hs Ha]. destruct Hx as [<- | Hx].
  - rewrite List.Forall_forall in Ha. apply Ha.
    rewrite <- (firstn_skipn n l). apply in_or_app. right. exact Hy.
  - exact (IH n Hs x y Hx Hy).
Qed.

Lemma NoDup_map_filter {A B} (f : A -> B) (p : A -> bool) (l : list A) :
  List.NoDup (List.map f l) -> List.NoDup (List.map f (List.filter p l)).
Proof.
  induction l as [| a l IH]; intros H; simpl; [constructor|].
  simpl in H. apply List.NoDup_cons_iff in H as [Ha H].
  destruct (p a); [|exact (IH H)].
  simpl. apply List.NoDup_cons_iff. split; [|exact (IH H)].
  intros Hin. apply Ha. apply List.in_map_iff in Hin as (x & <- & Hx).
  apply List.in_map. apply List.filter_In in Hx. apply Hx.
Qed.

Lemma NoDup_map_firstn {A B} (f : A -> B) (n : nat) (l : list A) :
  List.NoDup (List.map f l) -> List.NoDup (List.map f (firstn n l)).
Proof.
  revert n. induction l as [| a l IH]; intros [| n] H; simpl; try constructor.
  - simpl in H. apply List.NoDup_cons_iff in H as [Ha H].
    intros Hin. apply Ha. apply List.in_map_iff in Hin as (x & <- & Hx).
    apply List.in_map. rewrite <- (firstn_skipn n l). apply in_or_app. left. exact Hx.
  - simpl in H. apply List.NoDup_cons_iff in H as [_ H]. exact (IH n H).
Qed.

Lemma has_all_keys_NoDup {V} (o : keyed V) : has_all_keys o -> List.NoDup (List.map fst o).
Proof.
  unfold has_all_keys. intros H.
  apply (Permutation_NoDup (Permutation_sym H)), Analyzer.all_categories_NoDup.
Qed.

(** The analyzer with its console: the lines of [printed] come after the
    lines that were there. *)
Lemma analyzeResult_console_wp (result : ref ModerationResult) (inputText : string)
    (r : ModerationResult) (w : world) :
  heap w !! addr result = Some (CModerationResult r) ->
  wp (analyzeResult result inputText) w
     (fun out w' => out = analysis_of r /\ console w' = console w ++ printed r inputText).
Proof.
  intros Hr. unfold analyzeResult.
  apply Heap.wp_bind, (Heap.wp_load result r); [exact Hr|].
  apply Heap.wp_bind, Heap.wp_console_log. apply Heap.wp_bind, Heap.wp_console_log.
  unfold analysis_of. destruct (flagged r) eqn:Ef.
  - apply Heap.wp_bind. cbn [heap console].
    apply Heap.wp_bind. unfold Object_entries. apply Heap.wp_alloc. intros l1 H1.
    cbn [heap] in H1.
    apply Heap.wp_bind. unfold Array_filter. apply Heap.wp_bind.
    apply (Heap.wp_load _ (categories r)); [cbn; apply lookup_insert_eq|].
    apply Heap.wp_alloc. intros l2 H2. cbn [heap console] in *.
    apply Heap.wp_bind. unfold Array_map. apply Heap.wp_bind.
    apply (Heap.wp_load _ (List.filter is_flagged (categories r)));
      [cbn; apply lookup_insert_eq|].
    apply Heap.wp_alloc. intros l3 H3. cbn [heap console] in *.
    apply Heap.wp_bind. unfold Array_join. apply Heap.wp_bind.
    eapply Heap.wp_load; [cbn; apply lookup_insert_eq|]. apply Heap.wp_ret.
    apply Heap.wp_bind, Heap.wp_console_log. cbn [heap console].
    apply Heap.wp_bind. apply Heap.wp_alloc. intros l4 H4. cbn [heap console] in *.
    apply Heap.wp_bind. apply Heap.wp_bind.
    apply (Heap.wp_load _ (category_scores r)); [cbn; apply lookup_insert_eq|].
    apply Heap.wp_alloc. intros l5 H5. cbn [heap console] in *.
    apply Heap.wp_bind. unfold Array_sort. apply Heap.wp_bind.
    eapply Heap.wp_load; [cbn; apply lookup_insert_eq|].
    apply Heap.wp_bind, Heap.wp_store, Heap.wp_ret. cbn [heap console addr].
    apply Heap.wp_bind. unfold Array_slice0. apply Heap.wp_bind.
    eapply Heap.wp_load; [cbn; apply lookup_insert_eq|].
    apply Heap.wp_alloc. intros l6 H6. cbn [heap console] in *.
    apply Heap.wp_bind. unfold Array_length. apply Heap.wp_bind.
    eapply Heap.wp_load; [cbn; apply lookup_insert_eq|]. apply Heap.wp_ret.
    apply lookup_insert_None in H6 as [H6 N65].
    apply lookup_insert_None in H6 as [H6 _].
    apply lookup_insert_None in H6 as [H6 N64].
    apply lookup_insert_None in H6 as [H6 N63].
    assert (Hend : forall w0 : world,
      heap w0 !! l3 = Some (to_cell (List.map fst (List.filter is_flagged (categories r)))) ->
      heap w0 !! l6 = Some (to_cell (firstn 3 (sorted_high_scores r))) ->
      wp (fc ← load (Ref (A := list ModerationCategory) l3);
          hs ← load (Ref (A := list (ModerationCategory * JS.number)) l6);
          mret (Some (Analysis fc hs))) w0
         (fun v w' => wp (console_log (Text EmptyString);; mret v) w'
            (fun out w'' =>
               out = Some (Analysis (List.map fst (List.filter is_flagged (categories r)))
                                    (firstn 3 (sorted_high_scores r))) /\
               console w'' = console w0 ++ [Text EmptyString]))).
    { intros w0 Hl3 Hl6. apply Heap.wp_bind.
      apply (Heap.wp_load _ (List.map fst (List.filter is_flagged (categories r))));
        [exact Hl3|].
      apply Heap.wp_bind. apply (Heap.wp_load _ (firstn 3 (sorted_high_scores r)));
        [exact Hl6|].
      apply Heap.wp_ret. apply Heap.wp_bind, Heap.wp_console_log, Heap.wp_ret.
      split; reflexivity. }
    assert (Hpost : forall w0 : world,
      console w0 = console w ++ removelast (printed r inputText) ->
      flagged r = true ->
      forall (v : option analysis) (w' : world),
        wp (console_log (Text EmptyString);; mret v) w'
          (fun out w'' =>
             out = Some (Analysis (List.map fst (List.filter is_flagged (categories r)))
                                  (firstn 3 (sorted_high_scores r))) /\
             console w'' = console w0 ++ [Text EmptyString]) ->
        wp (console_log (Text EmptyString);; mret v) w'
          (fun out w'' =>
             out = Some (Analysis (List.map fst (List.filter is_flagged (categories r)))
                                  (firstn 3 (sorted_high_scores r))) /\
             console w'' = console w ++ printed r inputText)).
    { intros w0 Hc Hf v w' Hwp. eapply Heap.wp_mono; [|exact Hwp].
      intros out w'' [-> Hc'']. split; [reflexivity|]. rewrite Hc'', Hc, <- app_assoc.
      f_equal. unfold printed. rewrite !app_assoc.
      rewrite removelast_last. reflexivity. }
    assert (Hl3 : forall c5 c5' c6 c4,
              (<[l6:=c6]> (<[l5:=c5']> (<[l5:=c5]> (<[l4:=c4]>
                 (<[l3:=to_cell (List.map fst (List.filter is_flagged (categories r)))]>
                    (<[l2:=to_cell (List.filter is_flagged (categories r))]>
                       (<[l1:=to_cell (categories r)]> (heap w)))))))) !! l3
              = Some (to_cell (List.map fst (List.filter is_flagged (categories r))))).
    { intros. apply lookup_insert_None in H5 as [H5 N54].
      apply lookup_insert_None in H5 as [H5 N53].
      apply lookup_insert_None in H4 as [H4 N43].
      rewrite !lookup_insert_ne by congruence. apply lookup_insert_eq. }
    destruct (0 <? length (firstn 3 (sorted_high_scores r)))%nat eqn:En.
    + change (0 <? length _)%nat with (0 <? length (firstn 3 (sorted_high_scores r)))%nat.
      rewrite En.
      apply Heap.wp_bind. apply Heap.wp_bind, Heap.wp_console_log.
      unfold Array_forEach. apply Heap.wp_bind.
      eapply Heap.wp_load; [cbn; apply lookup_insert_eq|].
      eapply (Heap.wp_for_each_log _ score_line).
      { intros [c s] w'. reflexivity. }
      eapply Heap.wp_mono; [apply Hpost | apply Hend].
      * cbn [console]. unfold printed. rewrite Ef, En, !app_assoc, removelast_last.
        rewrite <- !app_assoc. reflexivity.
      * exact Ef.
      * cbn [heap]. apply Hl3.
      * cbn [heap]. apply lookup_insert_eq.
    + change (0 <? length _)%nat with (0 <? length (firstn 3 (sorted_high_scores r)))%nat.
      rewrite En. apply Heap.wp_bind, Heap.wp_ret.
      eapply Heap.wp_mono; [apply Hpost | apply Hend].
      * cbn [console]. unfold printed. rewrite Ef, En, !app_assoc, removelast_last.
        rewrite <- !app_assoc. reflexivity.
      * exact Ef.
      * cbn [heap]. apply Hl3.
      * cbn [heap]. apply lookup_insert_eq.
  - apply Heap.wp_bind, Heap.wp_ret. apply Heap.wp_bind, Heap.wp_console_log, Heap.wp_ret.
    split; [reflexivity|]. cbn [console]. unfold printed. rewrite Ef, <- !app_assoc.
    reflexivity.
Qed.

Lemma percent_lines_app (a b : list line) :
  percent_lines (a ++ b) = percent_lines a ++ percent_lines b.
Proof. apply List.filter_app. Qed.

Lemma percent_lines_scores (l : list (ModerationCategory * JS.number)) :
  percent_lines (List.map score_line l) = List.map score_line l.
Proof. induction l as [| e l IH]; simpl; [reflexivity | rewrite IH; reflexivity]. Qed.

Lemma percent_lines_printed (r : ModerationResult) (inputText : string) :
  percent_lines (printed r inputText)
  = if flagged r then List.map score_line (firstn 3 (sorted_high_scores r)) else [].
Proof.
  unfold printed. rewrite !percent_lines_app. cbn [percent_lines List.filter app].
  destruct (flagged r); [|reflexivity].
  cbn [percent_lines List.filter]. fold (percent_lines).
  destruct (firstn 3 (sorted_high_scores r)) as [| e l] eqn:E.
  - reflexivity.
  - cbn [length Nat.ltb Nat.leb]. cbn [List.filter].
    change (List.filter _ (List.map score_line (e :: l)))
      with (percent_lines (List.map score_line (e :: l))).
    rewrite percent_lines_scores, app_nil_r. reflexivity.
Qed.

End Report.

(** X5.  The entries kept are the highest ones, three of them or all when
    fewer score above 0.1: for a flagged result the entries above 0.1
    split into [highScores] and the entries left out, [highScores] has
    three entries or as many as there are if that is less, and no entry
    left out scores more than an entry kept. *)
Theorem analyzeResult_keeps_highest (result : ref ModerationResult) (inputText : string)
    (r : ModerationResult) (w : world) :
  heap w !! addr result = Some (CModerationResult r) ->
  flagged r = true ->
  exists fc top left_out w',
    analyzeResult result inputText w = Returned (Some (Analysis fc top)) w' /\
    Permutation (top ++ left_out)%list
      (List.filter (fun e => (0.1 <? snd e)%float) (category_scores r)) /\
    length top
    = Nat.min 3 (length (List.filter (fun e => (0.1 <? snd e)%float) (category_scores r))) /\
    forall kept other, In kept top -> In other left_out ->
                       (snd other <=? snd kept)%float = true.
Proof.
  intros H Hf.
  destruct (Analyzer.analyzeResult_returns result inputText r w H) as (w' & Hrun & _).
  unfold analysis_of in Hrun. rewrite Hf in Hrun.
  eexists _, _, (skipn 3 (sorted_high_scores r)), w'. split; [exact Hrun|].
  split; [|split].
  - rewrite firstn_skipn, <- Analyzer.is_high_above. apply Sorting.Array_sorted_perm.
  - rewrite List.length_firstn, <- Analyzer.is_high_above. f_equal.
    apply Permutation_length, Sorting.Array_sorted_perm.
  - intros kept other Hk Ho.
    apply (Report.sorted_split descending 3 (sorted_high_scores r)); try assumption.
    apply Sorting.Array_sorted_sorted, Sorting.filter_is_high.
Qed.

Lemma analyzeResult_keeps_highest_witness :
  exists fc top left_out w',
    analyzeResult (Ref 1%positive) "text" (world_with (CModerationResult crowded_result))
    = Returned (Some (Analysis fc top)) w' /\
    Permutation (top ++ left_out)%list
      (List.filter (fun e => (0.1 <? snd e)%float) (category_scores crowded_result)) /\
    length top = 3%nat /\ length left_out = 2%nat /\
    forall kept other, In kept top -> In other left_out ->
                       (snd other <=? snd kept)%float = true.
Proof.
  destruct (analyzeResult_keeps_highest (Ref 1%positive) "text" crowded_result
              (world_with (CModerationResult crowded_result)) eq_refl eq_refl)
    as (fc & top & left_out & w' & Hrun & Hperm & Hlen & Hmax).
  exists fc, top, left_out, w'. split; [exact Hrun|]. split; [exact Hperm|].
  split; [exact Hlen|]. split; [|exact Hmax].
  apply Permutation_length in Hperm. rewrite List.length_app, Hlen in Hperm.
  vm_compute in Hperm. injection Hperm as Hperm. exact Hperm.
Defined.

(** X6.  No category is listed twice: when [result.categories] and
    [result.category_scores] of a flagged result have each category as a
    key once, the categories of [flaggedCategories] are pairwise
    different, and so are those of [highScores]. *)
Theorem analyzeResult_no_duplicates (result : ref ModerationResult) (inputText : string)
    (r : ModerationResult) (w : world) :
  heap w !! addr result = Some (CModerationResult r) ->
  has_all_keys (categories r) -> has_all_keys (category_scores r) ->
  flagged r = true ->
  exists fc top w',
    analyzeResult result inputText w = Returned (Some (Analysis fc top)) w' /\
    List.NoDup fc /\ List.NoDup (List.map fst top).
Proof.
  intros H Hc Hs Hf.
  destruct (Analyzer.analyzeResult_returns result inputText r w H) as (w' & Hrun & _).
  unfold analysis_of in Hrun. rewrite Hf in Hrun.
  eexists _, _, w'. split; [exact Hrun|]. split.
  - apply Report.NoDup_map_filter, Report.has_all_keys_NoDup, Hc.
  - apply Report.NoDup_map_firstn. unfold sorted_high_scores.
    apply (Permutation_NoDup
             (Permutation_map fst
                (Permutation_sym (Sorting.Array_sorted_perm by_score_descending _)))).
    apply Report.NoDup_map_filter, Report.has_all_keys_NoDup, Hs.
Qed.

Lemma analyzeResult_no_duplicates_witness :
  exists fc top w',
    analyzeResult (Ref 1%positive) "text"
      (world_with (CModerationResult result_in_service_order))
    = Returned (Some (Analysis fc top)) w' /\
    List.NoDup fc /\ List.NoDup (List.map fst top).
Proof.
  apply (analyzeResult_no_duplicates (Ref 1%positive) "text" result_in_service_order
           (world_with (CModerationResult result_in_service_order))).
  - reflexivity.
  - unfold has_all_keys. apply (bool_decide_unpack _). vm_compute. exact I.
  - unfold has_all_keys. apply (bool_decide_unpack _). vm_compute. exact I.
  - reflexivity.
Defined.

(** X7.  The analyzer only adds lines to the console.  Among the added
    lines the score lines are one for each entry of [highScores], in the
    same order, with the category's tag and 100 times the score; so there
    are at most three, and none for a result that is not flagged. *)
Theorem analyzeResult_score_lines (result : ref ModerationResult) (inputText : string)
    (r : ModerationResult) (w : world) :
  heap w !! addr result = Some (CModerationResult r) ->
  exists out w' added,
    analyzeResult result inputText w = Returned out w' /\
    console w' = (console w ++ added)%list /\
    percent_lines added
    = match out with
      | Some a => List.map score_line (highScores a)
      | None => []
      end /\
    (length (percent_lines added) <= 3)%nat /\
    (flagged r = false -> percent_lines added = []).
Proof.
  intros H.
  destruct (Heap.wp_returned _ _ _ (Report.analyzeResult_console_wp result inputText r w H))
    as (out & w' & Hrun & -> & Hc).
  exists (analysis_of r), w', (printed r inputText).
  split; [exact Hrun|]. split; [exact Hc|].
  rewrite Report.percent_lines_printed. unfold analysis_of.
  destruct (flagged r); cbn [highScores].
  - split; [reflexivity|]. split; [|discriminate].
    rewrite length_map. apply firstn_le_length.
  - split; [reflexivity|]. split; [simpl; lia | reflexivity].
Qed.

Lemma analyzeResult_score_lines_witness :
  exists out w' added,
    analyzeResult (Ref 1%positive) "text"
      (world_with (CModerationResult result_in_service_order)) = Returned out w' /\
    console w'
    = (console (world_with (CModerationResult result_in_service_order)) ++ added)%list /\
    percent_lines added
    = match out with
      | Some a => List.map score_line (highScores a)
      | None => []
      end /\
    (length (percent_lines added) <= 3)%nat /\
    (flagged result_in_service_order = false -> percent_lines added = []).
Proof.
  apply (analyzeResult_score_lines (Ref 1%positive) "text" result_in_service_order
           (world_with (CModerationResult result_in_service_order))).
  reflexivity.
Defined.

(** ** Rate-limit headers *)

Module HeaderText.

Lemma digit_code (c : ascii) :
  JS.is_digit c = true -> (48 <= N_of_ascii c <= 57)%N.
Proof.
  unfold JS.is_digit. intros H. apply andb_prop in H as [H1 H2].
  apply N.leb_le in H1, H2. lia.
Qed.

Lemma digit_not_char (c d : ascii) :
  JS.is_digit c = true -> JS.is_digit d = false -> Ascii.eqb c d = false.
Proof.
  intros Hc Hd. destruct (Ascii.eqb_spec c d) as [-> |]; [congruence | reflexivity].
Qed.

Lemma TrimStart_digit (c : ascii) (r : string) :
  JS.is_digit c = true -> Text.TrimStart (String c r) = String c r.
Proof.
  intros Hc. apply digit_code in Hc. cbn [Text.TrimStart].
  assert (H1 : Text.is_space1 c = false).
  { unfold Text.is_space1. repeat (apply orb_false_intro); apply N.eqb_neq; lia. }
  rewrite H1. destruct r as [| c2 r2]; [reflexivity|].
  assert (H2 : Text.is_space2 c c2 = false).
  { unfold Text.is_space2. apply andb_false_intro1, N.eqb_neq. lia. }
  rewrite H2. destruct r2 as [| c3 r3]; [reflexivity|].
  assert (H3 : Text.is_space3 c c2 c3 = false).
  { unfold Text.is_space3.
    assert (forall k, (k <> N_of_ascii c)%N -> N.eqb (N_of_ascii c) k = false)
      as Hk by (intros k Hne; apply N.eqb_neq; congruence).
    rewrite (Hk 225%N), (Hk 226%N), (Hk 227%N), (Hk 239%N) by lia. reflexivity. }
  rewrite H3. reflexivity.
Qed.

Lemma digit_in_radix_decimal (c : ascii) :
  JS.is_digit c = true ->
  Text.digit_in_radix 10 c = Some (Z.of_N (N_of_ascii c) - 48).
Proof.
  intros Hc. apply digit_code in Hc. unfold Text.digit_in_radix.
  replace (Z.leb 48 (Z.of_N (N_of_ascii c)) && Z.leb (Z.of_N (N_of_ascii c)) 57)
    with true by (symmetry; apply andb_true_intro; split; apply Z.leb_le; lia).
  replace (Z.ltb (Z.of_N (N_of_ascii c) - 48) 10) with true
    by (symmetry; apply Z.ltb_lt; lia).
  reflexivity.
Qed.

Lemma radix_value_digits (s : string) (acc : Z) :
  all_digits s = true ->
  Text.radix_value 10 (Some acc) s = Some (JS.digits_value acc s).
Proof.
  revert acc. induction s as [| c s IH]; intros acc H; [reflexivity|].
  simpl in H. apply andb_prop in H as [Hc Hs].
  cbn [Text.radix_value JS.digits_value]. rewrite (digit_in_radix_decimal c Hc), Hc.
  cbn [default]. apply IH, Hs.
Qed.

(** On a run of decimal digits the full [parseInt] is the one of the
    duration parser. *)
Lemma parseInt_decimal (ds : string) :
  ds <> EmptyString -> all_digits ds = true -> Text.parseIntFull ds = JS.parseInt ds.
Proof.
  intros Hne Hds. destruct ds as [| c ds]; [congruence|].
  pose proof Hds as Hall. simpl in Hds. apply andb_prop in Hds as [Hc Hds].
  unfold Text.parseIntFull. rewrite (TrimStart_digit c ds Hc).
  rewrite (digit_not_char c "-" Hc eq_refl), (digit_not_char c "+" Hc eq_refl).
  assert (Hprefix : match String c ds with
                    | String c1 (String c2 rest) =>
                        if Ascii.eqb c1 "0" && (Ascii.eqb c2 "x" || Ascii.eqb c2 "X")
                        then (16, rest) else (10, String c ds)
                    | _ => (10, String c ds)
                    end = (10, String c ds)).
  { destruct ds as [| c2 rest]; [reflexivity|].
    simpl in Hds. apply andb_prop in Hds as [Hc2 _].
    rewrite (digit_not_char c2 "x" Hc2 eq_refl), (digit_not_char c2 "X" Hc2 eq_refl).
    rewrite andb_false_r. reflexivity. }
  rewrite Hprefix. cbn [Text.radix_value]. rewrite (digit_in_radix_decimal c Hc).
  cbn [default]. rewrite (radix_value_digits ds _ Hds).
  unfold JS.parseInt. rewrite Hc. cbn [JS.digits_value]. rewrite Hc.
  destruct (Z.eqb_spec (JS.digits_value (10 * 0 + (Z.of_N (N_of_ascii c) - 48)) ds) 0)
    as [E |]; [rewrite E|]; reflexivity.
Qed.

Lemma truthy_text (text : string) :
  text <> EmptyString -> JS.truthy (Some text) = true.
Proof.
  intros H. simpl. destruct (String.eqb_spec text EmptyString); [contradiction | reflexivity].
Qed.

Lemma truthy_blank (v : option string) : JS.truthy v = false <-> blank v.
Proof.
  unfold blank. destruct v as [text |]; simpl.
  - destruct (String.eqb_spec text EmptyString) as [-> |]; simpl; split; auto;
      try discriminate. intros [H | [= H]]; [discriminate | contradiction].
  - split; auto.
Qed.

Lemma parseRateLimitHeaders_returns (headers : Headers) (w : world) :
  exists l,
    parseRateLimitHeaders headers w
    = Returned (Ref l) (World (<[l := CRateLimitInfo (parsed headers)]> (heap w)) (console w))
    /\ heap w !! l = None.
Proof.
  exists (fresh (dom (heap w))). split; [reflexivity|].
  apply not_elem_of_dom, is_fresh.
Qed.

Lemma count_field_blank (v : option string) : count_field v = None <-> blank v.
Proof.
  rewrite <- truthy_blank. unfold count_field. destruct v as [text |]; [|split; reflexivity].
  destruct (JS.truthy (Some text)); split; congruence.
Qed.

Lemma count_field_unusable (v : option string) :
  unusable_count v = true ->
  count_field v = None \/ exists x, count_field v = Some x /\ PrimFloat.is_nan x = true.
Proof.
  unfold unusable_count, count_field. destruct v as [text |]; [|auto].
  intros H. destruct (JS.truthy (Some text)); eauto.
Qed.

Lemma candidate_wait_incomplete (limit remaining reset : option string) (t : JS.number) :
  incomplete limit remaining reset = true ->
  candidate_wait (count_field remaining) (count_field limit) (reset_field reset) t = None.
Proof.
  unfold incomplete, candidate_wait. intros H.
  apply orb_prop in H as [H | H]; [apply orb_prop in H as [H | H]|].
  - destruct (count_field_unusable _ H) as [-> | (l & -> & Hn)];
      [destruct (count_field remaining); reflexivity|].
    destruct (count_field remaining) as [r |]; [|reflexivity].
    destruct (reset_field reset); [|reflexivity].
    rewrite (Edges.edge_not_below r l t); [reflexivity|]. right; right; left. exact Hn.
  - destruct (count_field_unusable _ H) as [-> | (r & -> & Hn)]; [reflexivity|].
    destruct (count_field limit) as [l |]; [|reflexivity].
    destruct (reset_field reset); [|reflexivity].
    rewrite (Edges.edge_not_below r l t); [reflexivity|]. right; left. exact Hn.
  - apply negb_true_iff in H. unfold reset_field. rewrite H.
    destruct (count_field remaining), (count_field limit); reflexivity.
Qed.

Lemma count_field_decimal (ds : string) :
  ds <> EmptyString -> all_digits ds = true -> integer_value ds < 2 ^ 53 ->
  exists v, count_field (Some ds) = Some v /\ integer_of v = Some (integer_value ds).
Proof.
  intros Hne Hds Hlt. unfold count_field. rewrite (truthy_text ds Hne).
  eexists. split; [reflexivity|].
  rewrite (parseInt_decimal ds Hne Hds), (Duration.parseInt_digits ds Hne Hds).
  apply Binary64.integer_of_number_of_Z. split; [|exact Hlt].
  apply Duration.digits_value_nonneg. lia.
Qed.

Lemma reset_field_spec (v : option string) :
  reset_field v <> Some EmptyString /\
  (reset_field v = None <-> blank v) /\
  (forall text, v = Some text -> text <> EmptyString -> reset_field v = Some text).
Proof.
  unfold reset_field. split; [|split].
  - destruct v as [text |]; simpl; [|discriminate].
    destruct (String.eqb_spec text EmptyString); simpl; congruence.
  - rewrite <- truthy_blank. destruct v as [text |]; [|split; reflexivity].
    destruct (JS.truthy (Some text)); split; congruence.
  - intros text -> Hne. rewrite (truthy_text text Hne). reflexivity.
Qed.

End HeaderText.

(** X8.  A count header made of decimal digits is read exactly: the field
    of the new object holds the integer that the digits write, for each of
    the four count headers, as long as the integer is below 2^53. *)
Theorem parseRateLimitHeaders_decimal_count (headers : Headers) (w : world)
    (name : string) (field : RateLimitInfo -> option JS.number) (ds : string) :
  In (name, field) count_headers ->
  Headers_get headers name = Some ds ->
  ds <> EmptyString -> all_digits ds = true -> integer_value ds < 2 ^ 53 ->
  exists rateLimitInfo info w' v,
    parseRateLimitHeaders headers w = Returned rateLimitInfo w' /\
    heap w' !! addr rateLimitInfo = Some (CRateLimitInfo info) /\
    field info = Some v /\ integer_of v = Some (integer_value ds).
Proof.
  intros Hin Hget Hne Hds Hlt.
  destruct (HeaderText.parseRateLimitHeaders_returns headers w) as (l & Hrun & _).
  destruct (HeaderText.count_field_decimal ds Hne Hds Hlt) as (v & Hv & Hint).
  eexists (Ref l), (parsed headers), _, v. split; [exact Hrun|].
  split; [apply lookup_insert_eq|]. split; [|exact Hint].
  simpl in Hin.
  repeat (destruct Hin as [[= <- <-] | Hin];
          [cbn [parsed limitRequests limitTokens remainingRequests remainingTokens];
           rewrite Hget; exact Hv|]).
  contradiction.
Qed.

Lemma parseRateLimitHeaders_decimal_count_witness :
  exists rateLimitInfo info w' v,
    parseRateLimitHeaders example_headers empty_world = Returned rateLimitInfo w' /\
    heap w' !! addr rateLimitInfo = Some (CRateLimitInfo info) /\
    remainingTokens info = Some v /\ integer_of v = Some (integer_value "29000").
Proof.
  apply (parseRateLimitHeaders_decimal_count example_headers empty_world
           "x-ratelimit-remaining-tokens" remainingTokens "29000").
  - simpl. tauto.
  - reflexivity.
  - discriminate.
  - reflexivity.
  - vm_compute. reflexivity.
Defined.

(** X9.  Which fields the new object has.  A count field is undefined
    exactly when its header is missing or empty, and otherwise holds
    [parseInt] of the header's text, NaN included.  A reset field is
    undefined exactly when its header is missing or empty, and otherwise
    holds the header's text unchanged; it is never the empty string. *)
Theorem parseRateLimitHeaders_fields (headers : Headers) (w : world) :
  exists rateLimitInfo info w',
    parseRateLimitHeaders headers w = Returned rateLimitInfo w' /\
    heap w' !! addr rateLimitInfo = Some (CRateLimitInfo info) /\
    (forall name field, In (name, field) count_headers ->
       (field info = None <-> blank (Headers_get headers name)) /\
       (forall text, Headers_get headers name = Some text -> text <> EmptyString ->
                     field info = Some (Text.parseIntFull text))) /\
    (forall name field, In (name, field) reset_headers ->
       field info <> Some EmptyString /\
       (field info = None <-> blank (Headers_get headers name)) /\
       (forall text, Headers_get headers name = Some text -> text <> EmptyString ->
                     field info = Some text)).
Proof.
  destruct (HeaderText.parseRateLimitHeaders_returns headers w) as (l & Hrun & _).
  eexists (Ref l), (parsed headers), _. split; [exact Hrun|].
  split; [apply lookup_insert_eq|]. split.
  - intros name field Hin. simpl in Hin.
    assert (Hcount : forall v,
              (count_field v = None <-> blank v) /\
              (forall text, v = Some text -> text <> EmptyString ->
                            count_field v = Some (Text.parseIntFull text))).
    { intros v. split; [apply HeaderText.count_field_blank|].
      intros text -> Hne. unfold count_field.
      rewrite (HeaderText.truthy_text text Hne). reflexivity. }
    repeat (destruct Hin as [[= <- <-] | Hin]; [apply Hcount|]). contradiction.
  - intros name field Hin. simpl in Hin.
    repeat (destruct Hin as [[= <- <-] | Hin]; [apply HeaderText.reset_field_spec|]).
    contradiction.
Qed.

(** X10.  The advisor on the object of the header parser: when in each
    dimension a count header is missing or has no number at its start, or
    the reset header is missing or empty, the advised wait is 0, whatever
    the threshold and the other headers. *)
Theorem shouldWaitForRateLimit_incomplete_headers (headers : Headers)
    (threshold : option JS.number) (w : world) :
  incomplete (Headers_get headers "x-ratelimit-limit-requests")
             (Headers_get headers "x-ratelimit-remaining-requests")
             (Headers_get headers "x-ratelimit-reset-requests") = true ->
  incomplete (Headers_get headers "x-ratelimit-limit-tokens")
             (Headers_get headers "x-ratelimit-remaining-tokens")
             (Headers_get headers "x-ratelimit-reset-tokens") = true ->
  exists w',
    (rateLimitInfo ← parseRateLimitHeaders headers;
     shouldWaitForRateLimit rateLimitInfo threshold) w = Returned 0%float w'.
Proof.
  intros Hreq Htok.
  destruct (HeaderText.parseRateLimitHeaders_returns headers w) as (l & Hrun & _).
  eexists. unfold mbind, js_bind. rewrite Hrun.
  rewrite (Advisor.shouldWaitForRateLimit_returns (Ref l) threshold (parsed headers))
    by apply lookup_insert_eq.
  f_equal. rewrite Advisor.advised_wait_maximum. cbv zeta.
  cbn [parsed limitRequests limitTokens remainingRequests remainingTokens
       resetRequests resetTokens].
  rewrite (HeaderText.candidate_wait_incomplete _ _ _ _ Hreq),
          (HeaderText.candidate_wait_incomplete _ _ _ _ Htok).
  reflexivity.
Qed.

Lemma shouldWaitForRateLimit_incomplete_headers_witness :
  exists w',
    (rateLimitInfo ← parseRateLimitHeaders broken_headers;
     shouldWaitForRateLimit rateLimitInfo (Some 0.5%float)) empty_world
    = Returned 0%float w'.
Proof.
  apply (shouldWaitForRateLimit_incomplete_headers broken_headers (Some 0.5%float) empty_world);
    vm_compute; reflexivity.
Defined.

(** X11.  Every call makes a new object.  The reference of a call is not
    in use before it, two calls in a row give two different references,
    the object of the first call and every object that was on the heap
    before are left as they were, and nothing is printed. *)
Theorem parseRateLimitHeaders_fresh (headers1 headers2 : Headers) (w : world) :
  exists first w1 second w2 info,
    parseRateLimitHeaders headers1 w = Returned first w1 /\
    parseRateLimitHeaders headers2 w1 = Returned second w2 /\
    heap w !! addr first = None /\
    addr first <> addr second /\
    heap w1 !! addr first = Some (CRateLimitInfo info) /\
    heap w2 !! addr first = Some (CRateLimitInfo info) /\
    (forall l c, heap w !! l = Some c -> heap w2 !! l = Some c) /\
    console w2 = console w.
Proof.
  destruct (HeaderText.parseRateLimitHeaders_returns headers1 w) as (l1 & Hrun1 & Hf1).
  set (w1 := World (<[l1 := CRateLimitInfo (parsed headers1)]> (heap w)) (console w)) in *.
  destruct (HeaderText.parseRateLimitHeaders_returns headers2 w1) as (l2 & Hrun2 & Hf2).
  assert (Hne : l1 <> l2).
  { intros <-. unfold w1 in Hf2. cbn [heap] in Hf2.
    rewrite lookup_insert_eq in Hf2. discriminate. }
  eexists (Ref l1), w1, (Ref l2), _, (parsed headers1).
  split; [exact Hrun1|]. split; [exact Hrun2|]. cbn [addr heap console].
  split; [exact Hf1|]. split; [exact Hne|].
  split; [apply lookup_insert_eq|].
  split; [rewrite lookup_insert_ne by congruence; apply lookup_insert_eq|].
  split; [|reflexivity].
  intros l c Hl. unfold w1 in Hf2. cbn [heap] in Hf2.
  assert (l <> l1) by congruence.
  assert (l <> l2).
  { intros ->. rewrite lookup_insert_ne in Hf2 by congruence. congruence. }
  rewrite lookup_insert_ne by congruence. unfold w1. cbn [heap].
  rewrite lookup_insert_ne by congruence. exact Hl.
Qed.

Module Exhausted.




End Exhausted.



(** ** The threshold *)

Module Threshold.

Lemma SFltb_leb_trans (X T1 T2 : spec_float) :
  SFltb X T1 = true -> SFleb T1 T2 = true -> SFltb X T2 = true.
Proof.
  destruct X as [[] | [] | | [] mx ex];
  destruct T1 as [[] | [] | | [] m1 e1];
  destruct T2 as [[] | [] | | [] m2 e2];
    unfold SFltb, SFleb, SFcompare; try discriminate; try reflexivity;
    Binary64.compare_cases.
Qed.

Lemma SFleb_refl (X : spec_float) : nonneg_sf X -> SFleb X X = true.
Proof.
  destruct X as [[] | [] | | [] m e]; simpl; try contradiction; intros _; try reflexivity.
  unfold SFleb, SFcompare. Binary64.compare_cases.
Qed.

Lemma SFleb_total (X Y : spec_float) :
  nonneg_sf X -> nonneg_sf Y -> SFltb X Y = false -> SFleb Y X = true.
Proof.
  destruct X as [[] | [] | | [] mx ex]; simpl; try contradiction;
  destruct Y as [[] | [] | | [] my ey]; simpl; try contradiction;
    intros _ _; unfold SFltb, SFleb, SFcompare; try discriminate; try reflexivity.
  Binary64.compare_cases.
Qed.

Lemma SFltb_SFleb (X Y : spec_float) : SFltb X Y = true -> SFleb X Y = true.
Proof.
  unfold SFltb, SFleb. destruct (SFcompare X Y) as [[] |]; congruence.
Qed.

Lemma below_trans (x t1 t2 : JS.number) :
  (x <? t1)%float = true -> (t1 <=? t2)%float = true -> (x <? t2)%float = true.
Proof.
  rewrite !FloatAxioms.ltb_spec, FloatAxioms.leb_spec. apply SFltb_leb_trans.
Qed.

Lemma leb_refl (x : JS.number) : nonneg x -> (x <=? x)%float = true.
Proof. rewrite FloatAxioms.leb_spec. apply SFleb_refl. Qed.

Lemma larger_l (a b : JS.number) : nonneg a -> nonneg b -> (a <=? larger a b)%float = true.
Proof.
  intros Ha Hb. unfold larger. destruct (a <? b)%float eqn:E.
  - rewrite FloatAxioms.leb_spec. apply SFltb_SFleb. rewrite <- FloatAxioms.ltb_spec. exact E.
  - apply leb_refl, Ha.
Qed.

Lemma larger_r (a b : JS.number) : nonneg a -> nonneg b -> (b <=? larger a b)%float = true.
Proof.
  intros Ha Hb. unfold larger. destruct (a <? b)%float eqn:E.
  - apply leb_refl, Hb.
  - rewrite FloatAxioms.leb_spec. apply SFleb_total; try assumption.
    rewrite <- FloatAxioms.ltb_spec. exact E.
Qed.

(** A candidate stays a candidate under a higher threshold. *)
Lemma candidate_wait_mono (remaining limit : option JS.number) (reset : option string)
    (t1 t2 c : JS.number) :
  (t1 <=? t2)%float = true ->
  candidate_wait remaining limit reset t1 = Some c ->
  candidate_wait remaining limit reset t2 = Some c.
Proof.
  intros Ht. unfold candidate_wait.
  destruct remaining as [r |], limit as [l |], reset as [s |]; try discriminate.
  destruct (r / l <? t1)%float eqn:E; [|discriminate].
  rewrite (below_trans _ _ _ E Ht). auto.
Qed.

Lemma maximum_candidate_mono (c1 c2 d1 d2 : option JS.number) :
  (forall a, d1 = Some a -> nonneg a) -> (forall b, d2 = Some b -> nonneg b) ->
  (forall a, c1 = Some a -> d1 = Some a) -> (forall b, c2 = Some b -> d2 = Some b) ->
  (maximum_candidate c1 c2 <=? maximum_candidate d1 d2)%float = true.
Proof.
  intros N1 N2 H1 H2.
  destruct c1 as [a |]; [rewrite (H1 a eq_refl) in *; pose proof (N1 a eq_refl)|];
  (destruct c2 as [b |]; [rewrite (H2 b eq_refl) in *; pose proof (N2 b eq_refl)|]).
  - simpl. apply leb_refl. unfold larger. destruct (a <? b)%float; assumption.
  - destruct d2 as [b |]; simpl; [apply larger_l; auto | apply leb_refl; assumption].
  - destruct d1 as [a |]; simpl; [apply larger_r; auto | apply leb_refl; assumption].
  - apply Binary64.nonneg_leb, Advisor.maximum_candidate_nonneg; assumption.
Qed.

End Threshold.

(** X13.  Raising the threshold never lowers the advised wait: for two
    thresholds, the first at most the second, the advisor's value on the
    same object under the first is at most its value under the second. *)
Theorem shouldWaitForRateLimit_monotone (rateLimitInfo : ref RateLimitInfo)
    (info : RateLimitInfo) (t1 t2 : JS.number) (w : world) :
  heap w !! addr rateLimitInfo = Some (CRateLimitInfo info) ->
  (t1 <=? t2)%float = true ->
  exists v1 v2,
    shouldWaitForRateLimit rateLimitInfo (Some t1) w = Returned v1 w /\
    shouldWaitForRateLimit rateLimitInfo (Some t2) w = Returned v2 w /\
    (v1 <=? v2)%float = true.
Proof.
  intros H Ht. exists (advised_wait info (Some t1)), (advised_wait info (Some t2)).
  split; [apply Advisor.shouldWaitForRateLimit_returns, H|].
  split; [apply Advisor.shouldWaitForRateLimit_returns, H|].
  rewrite !Advisor.advised_wait_maximum. cbv zeta. cbn [default].
  apply Threshold.maximum_candidate_mono.
  - intros a. apply Advisor.candidate_wait_nonneg.
  - intros b. apply Advisor.candidate_wait_nonneg.
  - intros a. apply Threshold.candidate_wait_mono, Ht.
  - intros b. apply Threshold.candidate_wait_mono, Ht.
Qed.

Lemma shouldWaitForRateLimit_monotone_witness :
  exists v1 v2,
    shouldWaitForRateLimit (Ref 1%positive) (Some 0.01%float)
      (world_with (CRateLimitInfo example_info))
    = Returned v1 (world_with (CRateLimitInfo example_info)) /\
    shouldWaitForRateLimit (Ref 1%positive) (Some 0.5%float)
      (world_with (CRateLimitInfo example_info))
    = Returned v2 (world_with (CRateLimitInfo example_info)) /\
    (v1 <=? v2)%float = true.
Proof.
  apply (shouldWaitForRateLimit_monotone (Ref 1%positive) example_info 0.01%float 0.5%float
           (world_with (CRateLimitInfo example_info))); reflexivity.
Defined.
